(** * NFC assigned-key emulator: tag-to-key resolution and dispatch

    A shallow embedding of [nfc-assigned-key-emulator-win.js] (the Windows
    program) and of its macOS sibling (the second program of [README.md]),
    followed by the properties of the mapping store, the key tables and the
    card handler.

    Conventions of the embedding.
    - A JavaScript string is a [string]: a sequence of code units 0..255.
      On that range [trim] and [toLowerCase] below are the built-ins.
    - A plain object is the finite map of its own properties; property reads
      and the [in] operator also see [Object.prototype].
    - The text of the mapping file is represented by what [JSON.parse] makes
      of it.
    - The development has two renderings of the table. The first takes
      [TAG_KEY_MAPPING] for a plain object and sees of an entry that is no
      string only whether it is truthy; this is what the programs do with a
      table whose entries can be printed and are no infinities. Module
      [Full] follows the programs on everything [JSON.parse] can make of the
      mapping file: an object, an array, [null], a number, a string or a
      boolean, with entries of any kind. The last section shows that the
      first rendering is the second on the states it covers.
    - The file system, the operator and the child process are oracles of the
      environment record [env].
    - Card events are handled one after another: the handler runs to
      completion, the wait for the operator included, before the next event
      is taken up. *)

From Stdlib Require Import NArith Ascii String List Bool Lia.
From Stdlib.Strings Require Import Byte.
From stdpp Require Import base option strings gmap list.

Local Open Scope string_scope.
Local Open Scope N_scope.
Local Open Scope list_scope.

(** ** JavaScript built-ins used by the programs *)

Module JS.

(** WhiteSpace and LineTerminator code units below 256: TAB, LF, VT, FF, CR,
    SP and NBSP. *)
Definition is_whitespace (c : ascii) : bool :=
  let n := N_of_ascii c in
  ((9 <=? n) && (n <=? 13)) || (n =? 32) || (n =? 160).

(** Lower-case mapping of one code unit: A-Z, and the Latin-1 capitals
    U+00C0..U+00DE without the multiplication sign U+00D7. *)
Definition lower_char (c : ascii) : ascii :=
  let n := N_of_ascii c in
  if ((65 <=? n) && (n <=? 90))
     || ((192 <=? n) && (n <=? 222) && negb (n =? 215))
  then ascii_of_N (n + 32) else c.

(** [String.prototype.toLowerCase] *)
Fixpoint toLowerCase (s : string) : string :=
  match s with
  | EmptyString => EmptyString
  | String c r => String (lower_char c) (toLowerCase r)
  end.

Fixpoint trimStart (s : string) : string :=
  match s with
  | EmptyString => EmptyString
  | String c r => if is_whitespace c then trimStart r else s
  end.

Fixpoint trimEnd (s : string) : string :=
  match s with
  | EmptyString => EmptyString
  | String c r =>
      match trimEnd r with
      | EmptyString => if is_whitespace c then EmptyString else String c EmptyString
      | r' => String c r'
      end
  end.

(** [String.prototype.trim] *)
Definition trim (s : string) : string := trimEnd (trimStart s).

(** [String.prototype.startsWith] *)
Fixpoint startsWith (p s : string) : bool :=
  match p, s with
  | EmptyString, _ => true
  | String a p', String b s' => if Ascii.eqb a b then startsWith p' s' else false
  | String _ _, EmptyString => false
  end.

(** [s.replace(/c/g, r)]: every occurrence of the code unit [c] becomes [r]. *)
Fixpoint replaceAll (c : ascii) (r : string) (s : string) : string :=
  match s with
  | EmptyString => EmptyString
  | String a s' =>
      if Ascii.eqb a c then r ++ replaceAll c r s' else String a (replaceAll c r s')
  end.

(** Truthiness of a string: only the empty string is falsy. *)
Definition truthy_string (s : string) : bool :=
  match s with EmptyString => false | _ => true end.

Definition hex_digit (n : N) : ascii :=
  if n <? 10 then ascii_of_N (48 + n) else ascii_of_N (87 + n).

(** [buffer.toString('hex')] *)
Fixpoint toString_hex (b : list Byte.byte) : string :=
  match b with
  | [] => EmptyString
  | x :: r =>
      let n := Byte.to_N x in
      String (hex_digit (n / 16)) (String (hex_digit (n mod 16)) (toString_hex r))
  end.

(** The property names of [Object.prototype]; every object literal and every
    object made by [JSON.parse] inherits them. *)
Definition Object_prototype_keys : list string :=
  [ "constructor"; "__defineGetter__"; "__defineSetter__"; "hasOwnProperty";
    "__lookupGetter__"; "__lookupSetter__"; "isPrototypeOf";
    "propertyIsEnumerable"; "toString"; "valueOf"; "__proto__";
    "toLocaleString" ].

Definition inherited (k : string) : bool :=
  bool_decide (k ∈ Object_prototype_keys).

(** A value held by a property of the mapping table. The programs observe a
    value that is not a string only through its truthiness ([null], [false]
    and [0] are falsy; [true], other numbers, arrays, objects and functions
    are truthy), so that is what [VOther] records. *)
Inductive value : Type :=
  | VString (s : string)
  | VOther (truthy : bool).

#[global] Instance value_eq_dec : EqDecision value.
Proof. solve_decision. Defined.

(** The result of reading a property: [None] is [undefined]. *)
Definition truthy (v : option value) : bool :=
  match v with
  | None => false
  | Some (VString s) => truthy_string s
  | Some (VOther b) => b
  end.

(** [o[k]] on a plain object with own properties [o]. *)
Definition get (o : gmap string value) (k : string) : option value :=
  match o !! k with
  | Some v => Some v
  | None => if inherited k then Some (VOther true) else None
  end.

(** [o[k] = v] for a primitive [v]: an own property is updated or created,
    except that without an own [__proto__] the inherited setter takes the
    assignment and ignores a primitive. *)
Definition set (o : gmap string value) (k : string) (v : value) : gmap string value :=
  match o !! k with
  | Some _ => <[k := v]> o
  | None => if String.eqb k "__proto__" then o else <[k := v]> o
  end.

(** A static table written as an object literal, in declaration order. *)
Inductive property (A : Type) : Type :=
  | Own (a : A)
  | Inherited
  | Absent.
Arguments Own {A} a.
Arguments Inherited {A}.
Arguments Absent {A}.

Fixpoint own {A} (tbl : list (string * A)) (k : string) : option A :=
  match tbl with
  | [] => None
  | (k', a) :: r => if String.eqb k k' then Some a else own r k
  end.

(** [tbl[k]] *)
Definition lookup {A} (tbl : list (string * A)) (k : string) : property A :=
  match own tbl k with
  | Some a => Own a
  | None => if inherited k then Inherited else Absent
  end.

(** [k in tbl] *)
Definition has {A} (tbl : list (string * A)) (k : string) : bool :=
  match lookup tbl k with Absent => false | _ => true end.

(** The own property names of the literal, as declared. *)
Definition names {A} (tbl : list (string * A)) : list string := map fst tbl.

(** An array index is the canonical decimal text of an integer below
    2^32 - 1. *)
Fixpoint digits (s : string) (acc : N) : option N :=
  match s with
  | EmptyString => Some acc
  | String c r =>
      let n := N_of_ascii c in
      if (48 <=? n) && (n <=? 57) then digits r (10 * acc + (n - 48)) else None
  end.

Definition array_index (s : string) : option N :=
  match s with
  | EmptyString => None
  | String c r =>
      if Ascii.eqb c (ascii_of_N 48) then
        match r with EmptyString => Some 0 | _ => None end
      else
        match digits s 0 with
        | Some n => if n <? 4294967295 then Some n else None
        | None => None
        end
  end.

Fixpoint insert_index (x : N * string) (l : list (N * string)) : list (N * string) :=
  match l with
  | [] => [x]
  | y :: r => if fst x <? fst y then x :: y :: r else y :: insert_index x r
  end.

(** [Object.keys(tbl)]: array indices first, in ascending order, then the
    other names in declaration order. *)
Definition keys {A} (tbl : list (string * A)) : list string :=
  let indexed :=
    omap (fun k => match array_index k with Some n => Some (n, k) | None => None end)
         (names tbl) in
  map snd (fold_right insert_index [] indexed)
  ++ List.filter (fun k => negb (bool_decide (is_Some (array_index k)))) (names tbl).

End JS.

(** ** The key tables *)

(** [KEY_MAPPINGS] of the Windows program: action name to SendKeys code. *)
Definition KEY_MAPPINGS : list (string * string) :=
  [ ("left", "{LEFT}"); ("right", "{RIGHT}"); ("down", "{DOWN}"); ("up", "{UP}");
    ("enter", "{ENTER}"); ("return", "{ENTER}"); ("space", " ");
    ("escape", "{ESC}"); ("esc", "{ESC}"); ("tab", "{TAB}");
    ("delete", "{DELETE}"); ("backspace", "{BS}"); ("home", "{HOME}");
    ("end", "{END}"); ("pageup", "{PGUP}"); ("pagedown", "{PGDN}");
    ("arrowleft", "{LEFT}"); ("arrowright", "{RIGHT}");
    ("arrowdown", "{DOWN}"); ("arrowup", "{UP}");
    ("0", "0"); ("1", "1"); ("2", "2"); ("3", "3"); ("4", "4");
    ("5", "5"); ("6", "6"); ("7", "7"); ("8", "8"); ("9", "9");
    ("a", "A"); ("b", "B"); ("c", "C"); ("d", "D"); ("e", "E"); ("f", "F");
    ("g", "G"); ("h", "H"); ("i", "I"); ("j", "J"); ("k", "K"); ("l", "L");
    ("m", "M"); ("n", "N"); ("o", "O"); ("p", "P"); ("q", "Q"); ("r", "R");
    ("s", "S"); ("t", "T"); ("u", "U"); ("v", "V"); ("w", "W"); ("x", "X");
    ("y", "Y"); ("z", "Z") ].

(** [KEY_CODES] of the macOS program: action name to AppleScript key code. *)
Definition KEY_CODES : list (string * N) :=
  [ ("left", 123); ("right", 124); ("down", 125); ("up", 126);
    ("enter", 36); ("return", 36); ("space", 49); ("escape", 53);
    ("tab", 48); ("delete", 51); ("backspace", 51); ("home", 115);
    ("end", 119); ("pageup", 116); ("pagedown", 121);
    ("arrowleft", 123); ("arrowright", 124); ("arrowdown", 125);
    ("arrowup", 126);
    ("0", 29); ("1", 18); ("2", 19); ("3", 20); ("4", 21);
    ("5", 23); ("6", 22); ("7", 26); ("8", 28); ("9", 25);
    ("a", 0); ("b", 11); ("c", 8); ("d", 2); ("e", 14); ("f", 3);
    ("g", 5); ("h", 4); ("i", 34); ("j", 38); ("k", 40); ("l", 37);
    ("m", 46); ("n", 45); ("o", 31); ("p", 35); ("q", 12); ("r", 15);
    ("s", 1); ("t", 17); ("u", 32); ("v", 9); ("w", 13); ("x", 7);
    ("y", 16); ("z", 6) ].

(** The two programs differ in their table and in [pressKey] only. *)
Inductive platform : Type := Windows | MacOS.

(** The action names of the platform's table: its own property names. *)
Definition action_names (p : platform) : list string :=
  match p with
  | Windows => JS.names KEY_MAPPINGS
  | MacOS => JS.names KEY_CODES
  end.

(** [Object.keys] of the platform's table. *)
Definition table_keys (p : platform) : list string :=
  match p with
  | Windows => JS.keys KEY_MAPPINGS
  | MacOS => JS.keys KEY_CODES
  end.

(** [k in KEY_MAPPINGS], respectively [k in KEY_CODES]. *)
Definition table_has (p : platform) (k : string) : bool :=
  match p with
  | Windows => JS.has KEY_MAPPINGS k
  | MacOS => JS.has KEY_CODES k
  end.

(** ** State, environment and effects *)

(** What [JSON.parse] makes of the text of the mapping file, in the first
    rendering: a syntax error, or an object of properties. A file whose
    text is a JSON array, [null] or another scalar is in
    [Full.file_content]. *)
Inductive file_content : Type :=
  | NotJSON
  | JSONObject (o : gmap string JS.value).

(** The module-level table and the file [tag-key-mappings.json] ([None]:
    the file does not exist). In the first rendering the table is a plain
    object; [Full.state] has every value [loadMappings] can leave there. *)
Record state : Type := mkState {
  TAG_KEY_MAPPING : gmap string JS.value;
  MAPPINGS_FILE : option file_content
}.

(** The card object handed over by the reader driver. *)
Record card : Type := mkCard {
  card_type : string;
  card_uid : option string;
  card_data : option (list Byte.byte)
}.

(** What the surroundings do during one run: the operator's reply to the
    question, and whether the file system and the child process oblige. *)
Record env : Type := mkEnv {
  answer : string;
  mappings_readable : bool;
  mappings_writable : bool;
  script_writable : bool;
  exec_succeeds : bool
}.

Inductive error : Type :=
  | TypeError
  | SyntaxError
  | ReadError
  | WriteError
  | ExecError
  | UnknownKey (keyName : string) (available : list string)
  | RangeError.

(** One constructor per console message of the programs. *)
Inductive message : Type :=
  | MsgLoaded (n : nat)
  | MsgCreated
  | MsgLoadError (e : error)
  | MsgStartingEmpty
  | MsgSaveError (e : error)
  | MsgTagDetected (tagUID : string)
  | MsgAvailableHint
  | MsgSkipped
  | MsgCardDetected (reader : string)
  | MsgTagType (type : string)
  | MsgTagUID (shown : string)
  | MsgNoUID (c : card)
  | MsgInvalidKey (keyName : string)
  | MsgAvailableKeys (names : list string)
  | MsgAssigned (validKeyName tagUID : string)
  | MsgSaved
  | MsgResolved (tagUID : string) (assignedKey : option JS.value)
  | MsgSimulating (assignedKey : option JS.value)
  | MsgPressed (assignedKey : option JS.value)
  | MsgDispatchError (e : error)
  | MsgPermissionHint.

(** The command given to [exec]: PowerShell running the temporary script
    that calls [SendWait] on the given codes, or [osascript] sending a key
    code (the table's own number, or the text of an inherited built-in). *)
Inductive command : Type :=
  | PowerShell_SendWait (codes : string)
  | Osascript_key_code (code : JS.property N).

Inductive event : Type :=
  | Console (m : message)
  | Question (tagUID : string)
  | WriteScript (codes : string)
  | Exec (c : command)
  | Unlink.

Inductive result (A : Type) : Type :=
  | Ok (a : A)
  | Throw (e : error).
Arguments Ok {A} a.
Arguments Throw {A} e.

(** A computation reads and updates the state, emits events and returns or
    throws. *)
Definition M (A : Type) : Type := state -> result A * state * list event.

#[global] Instance M_ret : MRet M := fun A a s => (Ok a, s, []).

#[global] Instance M_bind : MBind M := fun A B f m s =>
  match m s with
  | (Ok a, s1, t1) => let '(r, s2, t2) := f a s1 in (r, s2, t1 ++ t2)
  | (Throw e, s1, t1) => (Throw e, s1, t1)
  end.

Definition throw {A} (e : error) : M A := fun s => (Throw e, s, []).

(** [try { m } catch (error) { h error }] *)
Definition try_catch {A} (m : M A) (h : error -> M A) : M A := fun s =>
  match m s with
  | (Ok a, s1, t1) => (Ok a, s1, t1)
  | (Throw e, s1, t1) => let '(r, s2, t2) := h e s1 in (r, s2, t1 ++ t2)
  end.

Definition emit (ev : event) : M unit := fun s => (Ok tt, s, [ev]).
Definition console (m : message) : M unit := emit (Console m).

Definition read_table : M (gmap string JS.value) :=
  fun s => (Ok (TAG_KEY_MAPPING s), s, []).

Definition write_table (o : gmap string JS.value) : M unit :=
  fun s => (Ok tt, mkState o (MAPPINGS_FILE s), []).

(** [fs.existsSync(MAPPINGS_FILE)] *)
Definition existsSync : M bool :=
  fun s => (Ok (bool_decide (is_Some (MAPPINGS_FILE s))), s, []).

(** [fs.readFileSync(MAPPINGS_FILE, "utf8")] *)
Definition readFileSync (e : env) : M file_content := fun s =>
  match MAPPINGS_FILE s with
  | Some c => if mappings_readable e then (Ok c, s, []) else (Throw ReadError, s, [])
  | None => (Throw ReadError, s, [])
  end.

(** [fs.writeFileSync(MAPPINGS_FILE, data, "utf8")] *)
Definition writeFileSync (e : env) (data : file_content) : M unit := fun s =>
  if mappings_writable e
  then (Ok tt, mkState (TAG_KEY_MAPPING s) (Some data), [])
  else (Throw WriteError, s, []).

(** [JSON.parse(data)] on the file contents of the first rendering. *)
Definition JSON_parse (data : file_content) : M (gmap string JS.value) :=
  match data with
  | NotJSON => throw SyntaxError
  | JSONObject o => mret o
  end.

(** [JSON.stringify(TAG_KEY_MAPPING, null, 2)], as what [JSON.parse] reads
    back from the text. For an object that is exact as long as no entry is
    an infinity, which is written as [null] and would turn from truthy to
    falsy; [Full.JSON_stringify] has that case, and arrays. *)
Definition JSON_stringify (o : gmap string JS.value) : file_content := JSONObject o.

(** The final state and the events of a computation. *)
Definition final {A} (m : M A) (s : state) : state := (m s).1.2.
Definition events {A} (m : M A) (s : state) : list event := (m s).2.
Definition outcome {A} (m : M A) (s : state) : result A := (m s).1.1.

(** ** The programs *)

Definition saveMappings (e : env) : M unit :=
  try_catch
    (o ← read_table;
     writeFileSync e (JSON_stringify o))
    (fun err => console (MsgSaveError err)).

(** [loadMappings] on a file that holds an object, if it is JSON:
    [Object.keys] of the table then cannot throw. [Full.loadMappings] has
    the other documents. *)
Definition loadMappings (e : env) : M unit :=
  try_catch
    (found ← existsSync;
     if found : bool then
       data ← readFileSync e;
       o ← JSON_parse data;
       write_table o;;
       console (MsgLoaded (size o))
     else
       saveMappings e;;
       console MsgCreated)
    (fun err =>
       console (MsgLoadError err);;
       console MsgStartingEmpty).

(** The promise of [askForKeyAssignment] resolves with [null] ([None]) or
    with the key name. *)
Definition askForKeyAssignment (e : env) (tagUID : string) : M (option string) :=
  console (MsgTagDetected tagUID);;
  console MsgAvailableHint;;
  emit (Question tagUID);;
  let keyName := JS.toLowerCase (JS.trim (answer e)) in
  if String.eqb keyName EmptyString then
    console MsgSkipped;;
    mret None
  else
    mret (Some keyName).

Definition double_quote : ascii := ascii_of_N 34.
Definition backtick : ascii := ascii_of_N 96.

(** [Object.keys(tbl).filter(k => !k.startsWith('arrow'))] *)
Definition without_arrow (names : list string) : list string :=
  List.filter (fun k => negb (JS.startsWith "arrow" k)) names.

(** [pressKey] of the Windows program. A rejected promise, and an exception
    in the promise's executor, are a [Throw]. The callback of [exec] removes
    the script before it settles the promise. *)
Definition pressKey_win (e : env) (keyName : option JS.value) : M unit :=
  match keyName with
  | Some (JS.VString k) =>
      let normalizedKey := JS.trim (JS.toLowerCase k) in
      if negb (JS.has KEY_MAPPINGS normalizedKey) then
        throw (UnknownKey k (without_arrow (JS.keys KEY_MAPPINGS)))
      else
        match JS.lookup KEY_MAPPINGS normalizedKey with
        | JS.Own sendKeyCode =>
            let codes :=
              JS.replaceAll double_quote
                (String backtick (String double_quote EmptyString)) sendKeyCode in
            (if script_writable e then emit (WriteScript codes) else throw WriteError);;
            emit (Exec (PowerShell_SendWait codes));;
            emit Unlink;;
            if exec_succeeds e then mret tt else throw ExecError
        | _ => throw TypeError
        end
  | _ => throw TypeError
  end.

(** [pressKey] of the macOS program: no [trim], and the test is on the value
    read from the table. *)
Definition pressKey_mac (e : env) (keyName : option JS.value) : M unit :=
  match keyName with
  | Some (JS.VString k) =>
      match JS.lookup KEY_CODES (JS.toLowerCase k) with
      | JS.Absent => throw (UnknownKey k (JS.keys KEY_CODES))
      | keyCode =>
          emit (Exec (Osascript_key_code keyCode));;
          if exec_succeeds e then mret tt else throw ExecError
      end
  | _ => throw TypeError
  end.

Definition pressKey (p : platform) : env -> option JS.value -> M unit :=
  match p with
  | Windows => pressKey_win
  | MacOS => pressKey_mac
  end.

(** The identifier the card handler extracts; [None] is [null]. *)
Definition tagUID_of (c : card) : option string :=
  if String.eqb (card_type c) "TAG_ISO_14443_3"
     && from_option JS.truthy_string false (card_uid c)
  then card_uid c
  else if String.eqb (card_type c) "TAG_ISO_14443_4"
          && bool_decide (is_Some (card_data c))
  then JS.toString_hex <$> card_data c
  else None.

(** The [try] block at the end of the card handler, for a value that the
    template literals of its messages can print: every string, number,
    boolean and built-in, and the objects and arrays without a property
    [toString] of their own. [Full.dispatch] has the values that make the
    first message throw. *)
Definition dispatch (p : platform) (e : env) (tagUID : string)
    (assignedKey : option JS.value) : M unit :=
  try_catch
    (console (MsgResolved tagUID assignedKey);;
     console (MsgSimulating assignedKey);;
     pressKey p e assignedKey;;
     console (MsgPressed assignedKey))
    (fun err =>
       console (MsgDispatchError err);;
       console MsgPermissionHint).

(** The handler of the reader's [card] event, on a table that is a plain
    object: neither the lookup nor the assignment can throw.
    [Full.on_card] has the other tables. *)
Definition on_card (p : platform) (e : env) (reader : string) (c : card) : M unit :=
  let tagUID := tagUID_of c in
  console (MsgCardDetected reader);;
  console (MsgTagType (card_type c));;
  console (MsgTagUID (if from_option JS.truthy_string false tagUID
                      then default EmptyString tagUID else "N/A"));;
  match tagUID with
  | Some tagUID =>
      if negb (JS.truthy_string tagUID) then console (MsgNoUID c)
      else
        TAG ← read_table;
        let assignedKey := JS.get TAG tagUID in
        if negb (JS.truthy assignedKey) then
          keyName ← askForKeyAssignment e tagUID;
          match keyName with
          | Some keyName =>
              if JS.truthy_string keyName then
                let normalizedKey := JS.trim (JS.toLowerCase keyName) in
                if negb (table_has p normalizedKey) then
                  console (MsgInvalidKey keyName);;
                  console (MsgAvailableKeys (without_arrow (table_keys p)))
                else
                  let validKeyName := normalizedKey in
                  TAG ← read_table;
                  write_table (JS.set TAG tagUID (JS.VString validKeyName));;
                  saveMappings e;;
                  let assignedKey := Some (JS.VString validKeyName) in
                  console (MsgAssigned validKeyName tagUID);;
                  console MsgSaved;;
                  dispatch p e tagUID assignedKey
              else mret tt
          | None => mret tt
          end
        else dispatch p e tagUID assignedKey
  | None => console (MsgNoUID c)
  end.

(** ** Sequences of card events *)

Record tap : Type := mkTap {
  tap_env : env;
  tap_reader : string;
  tap_card : card
}.

Definition on_tap (p : platform) (x : tap) : M unit :=
  on_card p (tap_env x) (tap_reader x) (tap_card x).

(** The state after the handler has run for each tap in turn. *)
Fixpoint run (p : platform) (taps : list tap) (s : state) : state :=
  match taps with
  | [] => s
  | x :: rest => run p rest (final (on_tap p x) s)
  end.

(** ** Observations on the events of a run *)

Definition is_exec (ev : event) : bool :=
  match ev with Exec _ => true | _ => false end.

Definition is_question (ev : event) : bool :=
  match ev with Question _ => true | _ => false end.

(** Was key injection invoked? *)
Definition injected (t : list event) : bool := existsb is_exec t.

(** Was the operator asked for an assignment? *)
Definition prompted (t : list event) : bool := existsb is_question t.

(** The commands given to [exec], in order. *)
Definition commands (t : list event) : list command :=
  omap (fun ev => match ev with Exec c => Some c | _ => None end) t.

(** The state of a process at start-up, before [loadMappings]. *)
Definition startup (file : option file_content) : state := mkState ∅ file.

(** The messages every run of the handler starts with. *)
Definition header (reader : string) (c : card) (shown : string) : list event :=
  [ Console (MsgCardDetected reader); Console (MsgTagType (card_type c));
    Console (MsgTagUID shown) ].

(** The events of [askForKeyAssignment] up to the operator's reply. *)
Definition asking (tagUID : string) : list event :=
  [ Console (MsgTagDetected tagUID); Console MsgAvailableHint; Question tagUID ].

(** The state the handler leaves after assigning [a] to [t]: the table has
    the new property, and the file has the new table when it could be
    written. *)
Definition assigned (e : env) (s : state) (t a : string) : state :=
  let o := JS.set (TAG_KEY_MAPPING s) t (JS.VString a) in
  mkState o (if mappings_writable e then Some (JSONObject o) else MAPPINGS_FILE s).

(** The events of [saveMappings]. *)
Definition saving (e : env) : list event :=
  if mappings_writable e then [] else [Console (MsgSaveError WriteError)].

(** How the [try] block of the handler ends: the message of success, or the
    report of the error caught. *)
Definition closing (v : option JS.value) (r : result unit) : list event :=
  match r with
  | Ok _ => [Console (MsgPressed v)]
  | Throw err => [Console (MsgDispatchError err); Console MsgPermissionHint]
  end.

(** Did the handler report [pressKey]'s unknown-key error? *)
Definition is_unknown_key_report (ev : event) : bool :=
  match ev with
  | Console (MsgDispatchError (UnknownKey _ _)) => true
  | _ => false
  end.

Definition reports_unknown_key (t : list event) : bool :=
  existsb is_unknown_key_report t.

(** Did the handler report a validation failure? *)
Definition is_invalid_key_report (ev : event) : bool :=
  match ev with
  | Console (MsgInvalidKey _) => true
  | _ => false
  end.

Definition reports_invalid_key (t : list event) : bool :=
  existsb is_invalid_key_report t.

(** A reply made of white space only. *)
Definition whitespace_only (s : string) : bool :=
  forallb JS.is_whitespace (list_ascii_of_string s).

Definition with_answer (a : string) (e : env) : env :=
  mkEnv a (mappings_readable e) (mappings_writable e) (script_writable e)
        (exec_succeeds e).

(** Every own property of the table holds a string that is trimmed, in
    lower case, and passes the platform's [in] test. *)
Definition validated (p : platform) (o : gmap string JS.value) : Prop :=
  ∀ k v, o !! k = Some v →
    ∃ a, v = JS.VString a ∧ JS.trim a = a ∧ JS.toLowerCase a = a
         ∧ table_has p a = true.

(** The five ways through the handler. *)
Inductive path (p : platform) (e : env) (reader : string) (c : card) (s : state) : Prop :=
  | path_no_uid :
      on_card p e reader c s
      = (Ok tt, s, header reader c "N/A" ++ [Console (MsgNoUID c)]) →
      path p e reader c s
  | path_hit t :
      tagUID_of c = Some t → JS.truthy_string t = true →
      JS.truthy (JS.get (TAG_KEY_MAPPING s) t) = true →
      on_card p e reader c s
      = (Ok tt, s,
         header reader c t
         ++ events (dispatch p e t (JS.get (TAG_KEY_MAPPING s) t)) s) →
      path p e reader c s
  | path_decline t :
      tagUID_of c = Some t →
      JS.truthy (JS.get (TAG_KEY_MAPPING s) t) = false →
      on_card p e reader c s
      = (Ok tt, s, header reader c t ++ asking t ++ [Console MsgSkipped]) →
      path p e reader c s
  | path_reject t a :
      tagUID_of c = Some t →
      JS.truthy (JS.get (TAG_KEY_MAPPING s) t) = false →
      JS.toLowerCase (JS.trim (answer e)) = a → table_has p a = false →
      on_card p e reader c s
      = (Ok tt, s,
         header reader c t ++ asking t
         ++ [Console (MsgInvalidKey a);
             Console (MsgAvailableKeys (without_arrow (table_keys p)))]) →
      path p e reader c s
  | path_assign t a :
      tagUID_of c = Some t →
      JS.truthy (JS.get (TAG_KEY_MAPPING s) t) = false →
      JS.toLowerCase (JS.trim (answer e)) = a → table_has p a = true →
      on_card p e reader c s
      = (Ok tt, assigned e s t a,
         header reader c t ++ asking t ++ saving e
         ++ [Console (MsgAssigned a t); Console MsgSaved]
         ++ events (dispatch p e t (Some (JS.VString a))) (assigned e s t a)) →
      path p e reader c s.

(** ** Sample inputs *)

(** An environment in which the file system and the child process oblige,
    and the operator replies [a]. *)
Definition obliging (a : string) : env := mkEnv a true true true true.

(** The same, except that the mapping file cannot be written. *)
Definition read_only (a : string) : env := mkEnv a true false true true.

(** An ISO 14443-3 card with the given UID. *)
Definition iso3 (uid : string) : card := mkCard "TAG_ISO_14443_3" (Some uid) None.

(** ** The single-key program *)

(** [pressRightArrow] of [nfc-key-emulator.js]: the AppleScript sends key
    code 124. *)
Definition pressRightArrow (e : env) : M unit :=
  emit (Exec (Osascript_key_code (JS.Own 124)));;
  if exec_succeeds e then mret tt else throw ExecError.

(** The console messages of that program. *)
Inductive simple_message : Type :=
  | SimpleCardDetected (reader : string) (c : card)
  | SimpleSimulating
  | SimplePressed
  | SimpleError (e : error)
  | SimplePermissionHint.

Inductive simple_event : Type :=
  | SimpleConsole (m : simple_message)
  | SimpleEffect (ev : event).

(** Its handler of the reader's [card] event: one message, then the [try]
    block around [pressRightArrow]. *)
Definition simple_on_card (e : env) (reader : string) (c : card) (s : state)
    : result unit * state * list simple_event :=
  let '(r, s1, t) := pressRightArrow e s in
  (Ok tt, s1,
   [SimpleConsole (SimpleCardDetected reader c); SimpleConsole SimpleSimulating]
   ++ map SimpleEffect t
   ++ match r with
      | Ok _ => [SimpleConsole SimplePressed]
      | Throw err => [SimpleConsole (SimpleError err); SimpleConsole SimplePermissionHint]
      end).

(** The commands given to [exec] by the single-key program. *)
Definition simple_commands (t : list simple_event) : list command :=
  omap (fun ev => match ev with SimpleEffect (Exec c) => Some c | _ => None end) t.

(** ** Further observations *)

(** A string of the digits [0-9a-f] only. *)
Definition is_hex_digit (c : ascii) : bool :=
  let n := N_of_ascii c in
  ((48 <=? n) && (n <=? 57)) || ((97 <=? n) && (n <=? 102)).

Definition all_hex (s : string) : bool :=
  forallb is_hex_digit (list_ascii_of_string s).

(** The value of a hexadecimal digit, and the byte two digits denote; used
    to show that [JS.toString_hex] loses nothing. *)
Definition hex_value (c : ascii) : N :=
  let n := N_of_ascii c in
  if n <? 58 then n - 48 else n - 87.

Definition byte_of_hex (h l : ascii) : option Byte.byte :=
  Byte.of_N (16 * hex_value h + hex_value l).

(** Was the message of a successful key press printed? *)
Definition is_pressed_report (ev : event) : bool :=
  match ev with
  | Console (MsgPressed _) => true
  | _ => false
  end.

Definition reports_pressed (t : list event) : bool := existsb is_pressed_report t.

(** The errors the handler reported from its [try] block. *)
Definition dispatch_errors (t : list event) : list error :=
  omap (fun ev => match ev with
                  | Console (MsgDispatchError err) => Some err
                  | _ => None
                  end) t.


(** An event that is neither an effect of [pressKey] nor a message about
    its outcome. *)
Definition is_quiet (ev : event) : bool :=
  match ev with
  | Console (MsgDispatchError _) | Console (MsgPressed _) => false
  | Console _ | Question _ => true
  | WriteScript _ | Exec _ | Unlink => false
  end.

Definition is_unlink (ev : event) : bool :=
  match ev with Unlink => true | _ => false end.

(** The ways [pressKey] can go: it fails before anything is executed, or it
    gives one command to [exec] and settles as [exec] does. *)
Inductive pressed (p : platform) (e : env) (v : option JS.value) (s : state) : Prop :=
  | pressed_not err :
      pressKey p e v s = (Throw err, s, []) → err ≠ ExecError →
      (p = Windows → err = WriteError → script_writable e = false) →
      pressed p e v s
  | pressed_win k code :
      p = Windows → v = Some (JS.VString k) →
      JS.own KEY_MAPPINGS (JS.trim (JS.toLowerCase k)) = Some code →
      script_writable e = true →
      pressKey p e v s
      = (if exec_succeeds e then Ok tt else Throw ExecError, s,
         [WriteScript code; Exec (PowerShell_SendWait code); Unlink]) →
      pressed p e v s
  | pressed_mac k :
      p = MacOS → v = Some (JS.VString k) →
      JS.lookup KEY_CODES (JS.toLowerCase k) ≠ JS.Absent →
      pressKey p e v s
      = (if exec_succeeds e then Ok tt else Throw ExecError, s,
         [Exec (Osascript_key_code (JS.lookup KEY_CODES (JS.toLowerCase k)))]) →
      pressed p e v s.

(** The value the handler takes to its [try] block, if it gets there: the
    entry read for the tag when it is truthy, the name just assigned when the
    reply passes the [in] test. *)
Definition dispatched (p : platform) (e : env) (c : card) (s : state)
    : option (option JS.value) :=
  match tagUID_of c with
  | Some t =>
      if JS.truthy_string t then
        if JS.truthy (JS.get (TAG_KEY_MAPPING s) t) then
          Some (JS.get (TAG_KEY_MAPPING s) t)
        else
          let a := JS.toLowerCase (JS.trim (answer e)) in
          if JS.truthy_string a && table_has p a
          then Some (Some (JS.VString a)) else None
      else None
  | None => None
  end.

(** Did the promise of [pressKey] resolve? *)
Definition settled (r : result unit) : bool :=
  match r with Ok _ => true | Throw _ => false end.

(** * The table as [JSON.parse] leaves it

    [loadMappings] assigns to [TAG_KEY_MAPPING] whatever [JSON.parse] makes
    of the mapping file: an object, but also an array, [null], a number, a
    string or a boolean. The definitions above follow the programs on a
    table that is a plain object, whose entries they observe as a string or
    through their truthiness. The module below follows them on every JSON
    document and keeps the entries as they are: an array loses its
    properties that are no indices when it is saved, an infinity is saved
    as [null], the table [null] makes the lookup throw, and an entry with a
    property [toString] of its own makes the first message of the [try]
    block throw. *)

Module Full.

(** The computations of the programs above, under a name that stays in reach
    when [M] is defined anew. *)
Definition Plain (A : Type) : Type := M A.

(** A number: the double [mantissa * 2^exponent], or an infinity. *)
Inductive number : Type :=
  | Finite (mantissa exponent : Z)
  | Infinite (negative : bool).

(** A JSON document, read as the value [JSON.parse] makes of it; also the
    values the table holds. A number of the document stands for the double
    it is read as, one too large for a double for an infinity. The
    properties of an object are listed with distinct names. *)
#[local] Unset Elimination Schemes.
Inductive json : Type :=
  | JNull
  | JBool (b : bool)
  | JNum (n : number)
  | JStr (s : string)
  | JArr (l : list json)
  | JObj (l : list (string * json)).
#[local] Set Elimination Schemes.

(** What [JSON.stringify] writes for a value, read back: an infinity is
    written as [null]. *)
Fixpoint sanitize (v : json) : json :=
  match v with
  | JNum (Infinite _) => JNull
  | JArr l => JArr (map sanitize l)
  | JObj l => JObj (map (fun '(k, x) => (k, sanitize x)) l)
  | _ => v
  end.

Definition truthy_json (v : json) : bool :=
  match v with
  | JNull => false
  | JBool b => b
  | JNum (Finite m _) => negb (m =? 0)%Z
  | JNum (Infinite _) => true
  | JStr s => JS.truthy_string s
  | JArr _ | JObj _ => true
  end.

(** Can the value be put into a template literal? An object with an own
    property [toString] cannot ([JSON.parse] makes no functions), and an
    array joins the texts of its elements. *)
Fixpoint printable (v : json) : bool :=
  match v with
  | JArr l => forallb printable l
  | JObj l => negb (existsb (fun '(k, _) => String.eqb k "toString") l)
  | _ => true
  end.

(** The value of [TAG_KEY_MAPPING]. An array has its elements, [None] for a
    hole, and the own properties that are not indices. *)
Inductive table : Type :=
  | TNull
  | TBool (b : bool)
  | TNum (n : number)
  | TStr (s : string)
  | TArr (elems : list (option json)) (props : gmap string json)
  | TObj (props : gmap string json).

(** The property names of the other prototypes (ECMAScript 2023); all of
    them inherit from [Object.prototype]. *)
Definition Array_prototype_keys : list string :=
  [ "at"; "concat"; "constructor"; "copyWithin"; "entries"; "every"; "fill";
    "filter"; "find"; "findIndex"; "findLast"; "findLastIndex"; "flat";
    "flatMap"; "forEach"; "includes"; "indexOf"; "join"; "keys";
    "lastIndexOf"; "map"; "pop"; "push"; "reduce"; "reduceRight"; "reverse";
    "shift"; "slice"; "some"; "sort"; "splice"; "toLocaleString";
    "toReversed"; "toSorted"; "toSpliced"; "toString"; "unshift"; "values";
    "with" ].

Definition String_prototype_keys : list string :=
  [ "anchor"; "at"; "big"; "blink"; "bold"; "charAt"; "charCodeAt";
    "codePointAt"; "concat"; "constructor"; "endsWith"; "fixed"; "fontcolor";
    "fontsize"; "includes"; "indexOf"; "isWellFormed"; "italics";
    "lastIndexOf"; "link"; "localeCompare"; "match"; "matchAll"; "normalize";
    "padEnd"; "padStart"; "repeat"; "replace"; "replaceAll"; "search";
    "slice"; "small"; "split"; "startsWith"; "strike"; "sub"; "substr";
    "substring"; "sup"; "toLocaleLowerCase"; "toLocaleUpperCase";
    "toLowerCase"; "toString"; "toUpperCase"; "toWellFormed"; "trim";
    "trimEnd"; "trimLeft"; "trimRight"; "trimStart"; "valueOf" ].

Definition Number_prototype_keys : list string :=
  [ "constructor"; "toExponential"; "toFixed"; "toLocaleString";
    "toPrecision"; "toString"; "valueOf" ].

Definition Boolean_prototype_keys : list string :=
  [ "constructor"; "toString"; "valueOf" ].

(** What a property read yields: a value of the table, or a built-in
    function or object found on the prototype chain. *)
Inductive read : Type :=
  | Value (v : json)
  | Builtin.

(** The result of reading a name that is no own property. *)
Definition inherit (prototype : list string) (k : string) : option read :=
  if bool_decide (k ∈ prototype) || JS.inherited k then Some Builtin else None.

Definition length_value (n : nat) : json := JNum (Finite (Z.of_nat n) 0).

(** [TAG_KEY_MAPPING[k]]; [None] is [undefined]. *)
Definition get (tb : table) (k : string) : result (option read) :=
  match tb with
  | TNull => Throw TypeError
  | TBool _ => Ok (inherit Boolean_prototype_keys k)
  | TNum _ => Ok (inherit Number_prototype_keys k)
  | TStr s =>
      match JS.array_index k with
      | Some i =>
          match String.get (N.to_nat i) s with
          | Some c => Ok (Some (Value (JStr (String c EmptyString))))
          | None => Ok (inherit String_prototype_keys k)
          end
      | None =>
          if String.eqb k "length" then Ok (Some (Value (length_value (String.length s))))
          else Ok (inherit String_prototype_keys k)
      end
  | TArr elems props =>
      match JS.array_index k with
      | Some i =>
          match elems !! N.to_nat i with
          | Some (Some v) => Ok (Some (Value v))
          | _ => Ok (inherit Array_prototype_keys k)
          end
      | None =>
          if String.eqb k "length" then Ok (Some (Value (length_value (length elems))))
          else match props !! k with
               | Some v => Ok (Some (Value v))
               | None => Ok (inherit Array_prototype_keys k)
               end
      end
  | TObj props =>
      match props !! k with
      | Some v => Ok (Some (Value v))
      | None => Ok (inherit [] k)
      end
  end.

(** Creating or updating an own property that is not an index; without an
    own [__proto__] the inherited setter ignores a string. *)
Definition put (props : gmap string json) (k : string) (v : json) : gmap string json :=
  match props !! k with
  | Some _ => <[k := v]> props
  | None => if String.eqb k "__proto__" then props else <[k := v]> props
  end.

(** Writing element [i] of an array, which grows by holes when needed. *)
Definition store (i : nat) (v : json) (elems : list (option json)) : list (option json) :=
  if bool_decide (i < length elems)%nat then <[i := Some v]> elems
  else elems ++ replicate (i - length elems) None ++ [Some v].

(** Setting the length of an array. *)
Definition resize (n : nat) (elems : list (option json)) : list (option json) :=
  take n elems ++ replicate (n - length elems) None.

(** The number a string stands for as the length of an array, if any; exact
    on strings of decimal digits (the empty string stands for 0) and on
    strings that number nothing, such as the names of the key tables. *)
Definition to_length (a : string) : option nat :=
  match JS.digits a 0 with
  | Some n => if n <? 4294967296 then Some (N.to_nat n) else None
  | None => None
  end.

(** [TAG_KEY_MAPPING[k] = a] for a string [a], in a module that is not in
    strict mode: an assignment to a property of a number, string or boolean
    is ignored. *)
Definition set (tb : table) (k : string) (a : string) : result table :=
  match tb with
  | TNull => Throw TypeError
  | TBool _ | TNum _ | TStr _ => Ok tb
  | TArr elems props =>
      match JS.array_index k with
      | Some i => Ok (TArr (store (N.to_nat i) (JStr a) elems) props)
      | None =>
          if String.eqb k "length" then
            match to_length a with
            | Some n => Ok (TArr (resize n elems) props)
            | None => Throw RangeError
            end
          else Ok (TArr elems (put props k (JStr a)))
      end
  | TObj props => Ok (TObj (put props k (JStr a)))
  end.

(** [Object.keys(TAG_KEY_MAPPING).length] *)
Definition Object_keys_length (tb : table) : result nat :=
  match tb with
  | TNull => Throw TypeError
  | TBool _ | TNum _ => Ok 0%nat
  | TStr s => Ok (String.length s)
  | TArr elems props =>
      Ok (length (List.filter (fun o => bool_decide (is_Some o)) elems) + size props)%nat
  | TObj props => Ok (size props)
  end.

(** [JSON.parse] of a document; of properties with the same name the last
    one counts. *)
Definition JSON_parse_document (d : json) : table :=
  match d with
  | JNull => TNull
  | JBool b => TBool b
  | JNum n => TNum n
  | JStr s => TStr s
  | JArr l => TArr (Some <$> l) ∅
  | JObj l => TObj (list_to_map (reverse l))
  end.

(** [JSON.stringify(TAG_KEY_MAPPING, null, 2)], as the document written:
    infinities and holes become [null], and of an array only the elements
    are written. *)
Definition JSON_stringify (tb : table) : json :=
  match tb with
  | TNull => JNull
  | TBool b => JBool b
  | TNum n => sanitize (JNum n)
  | TStr s => JStr s
  | TArr elems _ => JArr (map (from_option sanitize JNull) elems)
  | TObj props => JObj (map_to_list (sanitize <$> props))
  end.

(** The text of the mapping file: not JSON, or a document. *)
Inductive file_content : Type :=
  | NotJSON
  | JSON (d : json).

Record state : Type := mkState {
  TAG_KEY_MAPPING : table;
  MAPPINGS_FILE : option file_content
}.

Definition M (A : Type) : Type := state -> result A * state * list event.

#[global] Instance M_ret : MRet M := fun A a s => (Ok a, s, []).

#[global] Instance M_bind : MBind M := fun A B f m s =>
  match m s with
  | (Ok a, s1, t1) => let '(r, s2, t2) := f a s1 in (r, s2, t1 ++ t2)
  | (Throw e, s1, t1) => (Throw e, s1, t1)
  end.

Definition throw {A} (e : error) : M A := fun s => (Throw e, s, []).

Definition try_catch {A} (m : M A) (h : error -> M A) : M A := fun s =>
  match m s with
  | (Ok a, s1, t1) => (Ok a, s1, t1)
  | (Throw e, s1, t1) => let '(r, s2, t2) := h e s1 in (r, s2, t1 ++ t2)
  end.

Definition emit (ev : event) : M unit := fun s => (Ok tt, s, [ev]).
Definition console (m : message) : M unit := emit (Console m).

(** A value or an exception. *)
Definition settle {A} (r : result A) : M A := fun s => (r, s, []).

(** A computation of the programs above that neither reads nor writes the
    table or the file: [askForKeyAssignment] and [pressKey]. *)
Definition aside {A} (m : Plain A) : M A := fun s =>
  let '(r, _, t) := m (startup None) in (r, s, t).

Definition read_table : M table := fun s => (Ok (TAG_KEY_MAPPING s), s, []).

Definition write_table (tb : table) : M unit :=
  fun s => (Ok tt, mkState tb (MAPPINGS_FILE s), []).

Definition existsSync : M bool :=
  fun s => (Ok (bool_decide (is_Some (MAPPINGS_FILE s))), s, []).

Definition readFileSync (e : env) : M file_content := fun s =>
  match MAPPINGS_FILE s with
  | Some c => if mappings_readable e then (Ok c, s, []) else (Throw ReadError, s, [])
  | None => (Throw ReadError, s, [])
  end.

Definition writeFileSync (e : env) (data : json) : M unit := fun s =>
  if mappings_writable e
  then (Ok tt, mkState (TAG_KEY_MAPPING s) (Some (JSON data)), [])
  else (Throw WriteError, s, []).

Definition JSON_parse (data : file_content) : M table :=
  match data with
  | NotJSON => throw SyntaxError
  | JSON d => mret (JSON_parse_document d)
  end.

Definition saveMappings (e : env) : M unit :=
  try_catch
    (tb ← read_table;
     writeFileSync e (JSON_stringify tb))
    (fun err => console (MsgSaveError err)).

(** The table is assigned before its keys are counted. *)
Definition loadMappings (e : env) : M unit :=
  try_catch
    (found ← existsSync;
     if found : bool then
       data ← readFileSync e;
       tb ← JSON_parse data;
       write_table tb;;
       n ← settle (Object_keys_length tb);
       console (MsgLoaded n)
     else
       saveMappings e;;
       console MsgCreated)
    (fun err =>
       console (MsgLoadError err);;
       console MsgStartingEmpty).

Definition truthy (v : option read) : bool :=
  match v with
  | None => false
  | Some (Value v) => truthy_json v
  | Some Builtin => true
  end.

Definition printable_read (v : option read) : bool :=
  match v with
  | Some (Value v) => printable v
  | _ => true
  end.

(** The value as the programs above see it: a string, or something else of
    which only the truthiness counts. *)
Definition seen (v : option read) : option JS.value :=
  match v with
  | None => None
  | Some (Value (JStr s)) => Some (JS.VString s)
  | Some r => Some (JS.VOther (truthy (Some r)))
  end.

(** The [try] block at the end of the card handler: the template literal of
    its first message throws for a value that cannot be printed. *)
Definition dispatch (p : platform) (e : env) (tagUID : string)
    (assignedKey : option read) : M unit :=
  try_catch
    ((if printable_read assignedKey then mret tt else throw TypeError);;
     console (MsgResolved tagUID (seen assignedKey));;
     console (MsgSimulating (seen assignedKey));;
     aside (pressKey p e (seen assignedKey));;
     console (MsgPressed (seen assignedKey)))
    (fun err =>
       console (MsgDispatchError err);;
       console MsgPermissionHint).

(** The handler of the reader's [card] event. The lookup and the assignment
    are outside the [try] block. *)
Definition on_card (p : platform) (e : env) (reader : string) (c : card) : M unit :=
  let tagUID := tagUID_of c in
  console (MsgCardDetected reader);;
  console (MsgTagType (card_type c));;
  console (MsgTagUID (if from_option JS.truthy_string false tagUID
                      then default EmptyString tagUID else "N/A"));;
  match tagUID with
  | Some tagUID =>
      if negb (JS.truthy_string tagUID) then console (MsgNoUID c)
      else
        TAG ← read_table;
        assignedKey ← settle (get TAG tagUID);
        if negb (truthy assignedKey) then
          keyName ← aside (askForKeyAssignment e tagUID);
          match keyName with
          | Some keyName =>
              if JS.truthy_string keyName then
                let normalizedKey := JS.trim (JS.toLowerCase keyName) in
                if negb (table_has p normalizedKey) then
                  console (MsgInvalidKey keyName);;
                  console (MsgAvailableKeys (without_arrow (table_keys p)))
                else
                  let validKeyName := normalizedKey in
                  TAG ← read_table;
                  TAG ← settle (set TAG tagUID validKeyName);
                  write_table TAG;;
                  saveMappings e;;
                  let assignedKey := Some (Value (JStr validKeyName)) in
                  console (MsgAssigned validKeyName tagUID);;
                  console MsgSaved;;
                  dispatch p e tagUID assignedKey
              else mret tt
          | None => mret tt
          end
        else dispatch p e tagUID assignedKey
  | None => console (MsgNoUID c)
  end.

Definition final {A} (m : M A) (s : state) : state := (m s).1.2.
Definition events {A} (m : M A) (s : state) : list event := (m s).2.
Definition outcome {A} (m : M A) (s : state) : result A := (m s).1.1.

(** The state after an assignment that made the table [tb]: the file has
    what [JSON.stringify] writes for it when it could be written. *)
Definition assigned (e : env) (s : state) (tb : table) : state :=
  mkState tb (if mappings_writable e then Some (JSON (JSON_stringify tb))
              else MAPPINGS_FILE s).

(** The events of the [try] block. *)
Definition trying (p : platform) (e : env) (tagUID : string)
    (v : option read) : list event :=
  if printable_read v then
    [Console (MsgResolved tagUID (seen v)); Console (MsgSimulating (seen v))]
    ++ (pressKey p e (seen v) (startup None)).2
    ++ closing (seen v) (pressKey p e (seen v) (startup None)).1.1
  else [Console (MsgDispatchError TypeError); Console MsgPermissionHint].

(** The value the handler takes to its [try] block, if it gets there: the
    entry read for the tag when it is truthy, the name just assigned when the
    reply passes the [in] test and the assignment does not throw. *)
Definition dispatched (p : platform) (e : env) (c : card) (s : state)
    : option (option read) :=
  match tagUID_of c with
  | Some t =>
      if JS.truthy_string t then
        match get (TAG_KEY_MAPPING s) t with
        | Ok v =>
            if truthy v then Some v
            else
              let a := JS.toLowerCase (JS.trim (answer e)) in
              if JS.truthy_string a && table_has p a then
                match set (TAG_KEY_MAPPING s) t a with
                | Ok _ => Some (Some (Value (JStr a)))
                | Throw _ => None
                end
              else None
        | Throw _ => None
        end
      else None
  | None => None
  end.

(** The seven ways through the handler: two of them throw. *)
Inductive path (p : platform) (e : env) (reader : string) (c : card) (s : state) : Prop :=
  | path_no_uid :
      from_option JS.truthy_string false (tagUID_of c) = false →
      on_card p e reader c s
      = (Ok tt, s, header reader c "N/A" ++ [Console (MsgNoUID c)]) →
      path p e reader c s
  | path_throws t err :
      tagUID_of c = Some t → JS.truthy_string t = true →
      get (TAG_KEY_MAPPING s) t = Throw err →
      on_card p e reader c s = (Throw err, s, header reader c t) →
      path p e reader c s
  | path_hit t v :
      tagUID_of c = Some t → JS.truthy_string t = true →
      get (TAG_KEY_MAPPING s) t = Ok v → truthy v = true →
      on_card p e reader c s
      = (Ok tt, s, header reader c t ++ trying p e t v) →
      path p e reader c s
  | path_decline t v :
      tagUID_of c = Some t → JS.truthy_string t = true →
      get (TAG_KEY_MAPPING s) t = Ok v → truthy v = false →
      JS.toLowerCase (JS.trim (answer e)) = EmptyString →
      on_card p e reader c s
      = (Ok tt, s, header reader c t ++ asking t ++ [Console MsgSkipped]) →
      path p e reader c s
  | path_reject t v a :
      tagUID_of c = Some t → JS.truthy_string t = true →
      get (TAG_KEY_MAPPING s) t = Ok v → truthy v = false →
      JS.toLowerCase (JS.trim (answer e)) = a → JS.truthy_string a = true →
      table_has p a = false →
      on_card p e reader c s
      = (Ok tt, s,
         header reader c t ++ asking t
         ++ [Console (MsgInvalidKey a);
             Console (MsgAvailableKeys (without_arrow (table_keys p)))]) →
      path p e reader c s
  | path_assign_throws t v a err :
      tagUID_of c = Some t → JS.truthy_string t = true →
      get (TAG_KEY_MAPPING s) t = Ok v → truthy v = false →
      JS.toLowerCase (JS.trim (answer e)) = a → JS.truthy_string a = true →
      table_has p a = true →
      set (TAG_KEY_MAPPING s) t a = Throw err →
      on_card p e reader c s = (Throw err, s, header reader c t ++ asking t) →
      path p e reader c s
  | path_assign t v a tb :
      tagUID_of c = Some t → JS.truthy_string t = true →
      get (TAG_KEY_MAPPING s) t = Ok v → truthy v = false →
      JS.toLowerCase (JS.trim (answer e)) = a → JS.truthy_string a = true →
      table_has p a = true →
      set (TAG_KEY_MAPPING s) t a = Ok tb →
      on_card p e reader c s
      = (Ok tt, assigned e s tb,
         header reader c t ++ asking t ++ saving e
         ++ [Console (MsgAssigned a t); Console MsgSaved]
         ++ trying p e t (Some (Value (JStr a)))) →
      path p e reader c s.

(** The table after one save and reload. *)
Definition reloaded (tb : table) : table :=
  JSON_parse_document (JSON_stringify tb).

(** The mapping file is up to date: loading it gives the table that saving
    the present table and loading it again would give. *)
Definition in_sync (s : state) : Prop :=
  match MAPPINGS_FILE s with
  | Some (JSON d) => JSON_parse_document d = reloaded (TAG_KEY_MAPPING s)
  | _ => False
  end.

(** The state after the handler has run for each tap in turn, as long as it
    does not throw. *)
Fixpoint run (p : platform) (taps : list tap) (s : state) : state :=
  match taps with
  | [] => s
  | x :: rest =>
      run p rest (final (on_card p (tap_env x) (tap_reader x) (tap_card x)) s)
  end.

(** The state of a process at start-up: the table is [{}]. *)
Definition startup (file : option file_content) : state := mkState (TObj ∅) file.

End Full.

(** ** The two renderings of the table

    An object table of [Full] whose entries can be printed and are no
    infinities is rendered by the definitions before [Full]. *)

(** An entry as the first rendering has it: a string, or its truthiness. *)
Definition view (v : Full.json) : JS.value :=
  match v with
  | Full.JStr s => JS.VString s
  | _ => JS.VOther (Full.truthy_json v)
  end.

(** An entry that can be printed and is no infinity, which a save would
    turn into [null]. *)
Definition plain (v : Full.json) : bool :=
  Full.printable v
  && match v with Full.JNum (Full.Infinite _) => false | _ => true end.

Definition plain_object (props : gmap string Full.json) : Prop :=
  map_Forall (fun _ v => plain v = true) props.

(** The mapping file in both renderings: missing, not JSON, or an object
    of plain entries. *)
Definition file_corresponds (f : option Full.file_content)
    (g : option file_content) : Prop :=
  match f, g with
  | None, None => True
  | Some Full.NotJSON, Some NotJSON => True
  | Some (Full.JSON d), Some (JSONObject o) =>
      ∃ props, Full.JSON_parse_document d = Full.TObj props
               ∧ plain_object props ∧ o = view <$> props
  | _, _ => False
  end.

Definition corresponds (s : Full.state) (s' : state) : Prop :=
  ∃ props, Full.TAG_KEY_MAPPING s = Full.TObj props
           ∧ plain_object props
           ∧ TAG_KEY_MAPPING s' = view <$> props
           ∧ file_corresponds (Full.MAPPINGS_FILE s) (MAPPINGS_FILE s').

(** * Properties *)

(** ** Facts about the built-ins *)

Module JSFacts.
Import JS.

Lemma is_whitespace_lower_char c : is_whitespace (lower_char c) = is_whitespace c.
Proof. destruct c as [[] [] [] [] [] [] [] []]; reflexivity. Qed.

Lemma lower_char_idem c : lower_char (lower_char c) = lower_char c.
Proof. destruct c as [[] [] [] [] [] [] [] []]; reflexivity. Qed.

Lemma toLowerCase_idem s : toLowerCase (toLowerCase s) = toLowerCase s.
Proof. induction s as [|c r IH]; simpl; [done|]. by rewrite lower_char_idem, IH. Qed.

Lemma trimStart_toLowerCase s : trimStart (toLowerCase s) = toLowerCase (trimStart s).
Proof.
  induction s as [|c r IH]; simpl; [done|].
  rewrite is_whitespace_lower_char. by destruct (is_whitespace c).
Qed.

Lemma trimEnd_toLowerCase s : trimEnd (toLowerCase s) = toLowerCase (trimEnd s).
Proof.
  induction s as [|c r IH]; simpl; [done|].
  rewrite IH, is_whitespace_lower_char.
  destruct (trimEnd r); simpl; [by destruct (is_whitespace c)|done].
Qed.

(** Trimming and lower-casing commute, so the two orders in which the
    programs apply them agree. *)
Lemma trim_toLowerCase s : trim (toLowerCase s) = toLowerCase (trim s).
Proof. unfold trim. by rewrite trimStart_toLowerCase, trimEnd_toLowerCase. Qed.

Lemma trimEnd_cons c r :
  trimEnd (String c r) =
  match trimEnd r with
  | EmptyString => if is_whitespace c then EmptyString else String c EmptyString
  | r' => String c r'
  end.
Proof. reflexivity. Qed.

Lemma trimEnd_idem s : trimEnd (trimEnd s) = trimEnd s.
Proof.
  induction s as [|c r IH]; simpl; [done|].
  destruct (trimEnd r) as [|d r'] eqn:E.
  - destruct (is_whitespace c) eqn:W; simpl; [done|]. by rewrite W.
  - by rewrite (trimEnd_cons c (String d r')), IH.
Qed.

Lemma trimStart_head s :
  trimStart s = EmptyString
  ∨ ∃ c r, trimStart s = String c r ∧ is_whitespace c = false.
Proof.
  induction s as [|c r IH]; simpl; [by left|].
  destruct (is_whitespace c) eqn:W; [done|]. right. eauto.
Qed.

Lemma trimStart_trimEnd_head c r :
  is_whitespace c = false →
  trimStart (trimEnd (String c r)) = trimEnd (String c r).
Proof.
  intros W. rewrite trimEnd_cons.
  destruct (trimEnd r); rewrite ?W; simpl; by rewrite W.
Qed.

Lemma trim_idem s : trim (trim s) = trim s.
Proof.
  unfold trim. destruct (trimStart_head s) as [->|(c & r & -> & W)]; [done|].
  by rewrite trimStart_trimEnd_head, trimEnd_idem.
Qed.

(** The name the card handler validates, [keyName.toLowerCase().trim()] of
    the resolved [answer.trim().toLowerCase()], is the latter. *)
Lemma normalized_twice s :
  trim (toLowerCase (toLowerCase (trim s))) = toLowerCase (trim s).
Proof. by rewrite toLowerCase_idem, trim_toLowerCase, trim_idem. Qed.

Lemma trimStart_whitespace s :
  forallb is_whitespace (list_ascii_of_string s) = true → trimStart s = EmptyString.
Proof.
  induction s as [|c r IH]; simpl; [done|].
  intros [W H]%andb_true_iff. rewrite W. auto.
Qed.

Lemma trim_whitespace s :
  forallb is_whitespace (list_ascii_of_string s) = true → trim s = EmptyString.
Proof. intros H. unfold trim. by rewrite trimStart_whitespace. Qed.

Lemma eqb_empty s : String.eqb s EmptyString = negb (truthy_string s).
Proof. by destruct s. Qed.

(** Own properties of a literal. *)
Lemma own_is_Some {A} (tbl : list (string * A)) k :
  is_Some (own tbl k) ↔ k ∈ names tbl.
Proof.
  unfold names. induction tbl as [|[k' a] r IH]; simpl.
  - split; [by intros [? ?]|by intros ?%elem_of_nil].
  - rewrite elem_of_cons. destruct (String.eqb_spec k k') as [->|Hne].
    + split; [by left|eauto].
    + rewrite IH. split; [by right|by intros [?|?]].
Qed.

Lemma has_names {A} (tbl : list (string * A)) k :
  k ∈ names tbl → has tbl k = true.
Proof.
  intros [a Ha]%own_is_Some. unfold has, lookup. by rewrite Ha.
Qed.

Lemma has_spec {A} (tbl : list (string * A)) k :
  has tbl k = true ↔ k ∈ names tbl ∨ k ∈ Object_prototype_keys.
Proof.
  unfold has, lookup, inherited. destruct (own tbl k) as [a|] eqn:E.
  - split; [|done]. intros _. left. apply own_is_Some. eauto.
  - case_bool_decide as Hk.
    + split; [by right|done].
    + split; [done|]. intros [[? ?]%own_is_Some|?]; congruence.
Qed.


Lemma get_set_ne o k k' v : k ≠ k' → get (set o k v) k' = get o k'.
Proof.
  intros Hne. unfold get, set.
  destruct (o !! k); [by rewrite lookup_insert_ne|].
  destruct (String.eqb k "__proto__"); [done|]. by rewrite lookup_insert_ne.
Qed.

End JSFacts.

(** ** The card handler, path by path *)

Ltac unfold_M :=
  unfold final, events, outcome, on_tap, on_card, askForKeyAssignment, dispatch,
    saveMappings, loadMappings, console, emit, throw, try_catch, read_table,
    write_table, writeFileSync, readFileSync, existsSync, JSON_parse,
    JSON_stringify, mbind, M_bind, mret, M_ret in *.

Section Handler.
Import JS JSFacts.
Variable p : platform.
Variable e : env.

(** [pressKey] never touches the table or the mapping file. *)
Lemma pressKey_state v s : final (pressKey p e v) s = s.
Proof.
  destruct p, v as [[k|b]|]; simpl; try done.
  - unfold pressKey_win. destruct (has KEY_MAPPINGS _); simpl; [|done].
    destruct (lookup KEY_MAPPINGS _); try done.
    unfold_M. by destruct (script_writable e), (exec_succeeds e).
  - unfold pressKey_mac.
    destruct (lookup KEY_CODES _); try done;
      unfold_M; by destruct (exec_succeeds e).
Qed.

Lemma pressKey_prompted v s : prompted (events (pressKey p e v) s) = false.
Proof.
  destruct p, v as [[k|b]|]; simpl; try done.
  - unfold pressKey_win. destruct (has KEY_MAPPINGS _); simpl; [|done].
    destruct (lookup KEY_MAPPINGS _); try done.
    unfold_M. by destruct (script_writable e), (exec_succeeds e).
  - unfold pressKey_mac.
    destruct (lookup KEY_CODES _); try done;
      unfold_M; by destruct (exec_succeeds e).
Qed.

(** The [try] block: two messages, [pressKey], and the message of success
    or the report of the error. *)
Lemma dispatch_eq t v s :
  dispatch p e t v s =
  (Ok tt, s,
   [Console (MsgResolved t v); Console (MsgSimulating v)]
   ++ events (pressKey p e v) s ++ closing v (outcome (pressKey p e v) s)).
Proof.
  pose proof (pressKey_state v s) as Hs.
  unfold_M. simpl in *.
  destruct (pressKey p e v s) as [[[[]|err] s'] tr]; simpl in *; subst s';
    by rewrite ?app_nil_r.
Qed.

Ltac unfold_card :=
  unfold on_card, askForKeyAssignment, saveMappings, console, emit, throw,
    try_catch, read_table, write_table, writeFileSync, JSON_stringify,
    mbind, M_bind, mret, M_ret.

Lemma dispatch_events t v s :
  events (dispatch p e t v) s =
  [Console (MsgResolved t v); Console (MsgSimulating v)]
  ++ events (pressKey p e v) s ++ closing v (outcome (pressKey p e v) s).
Proof. unfold events at 1. by rewrite dispatch_eq. Qed.

(** No usable identifier: the event ends with the warning. *)
Lemma on_card_no_uid reader c s :
  from_option truthy_string false (tagUID_of c) = false →
  on_card p e reader c s =
  (Ok tt, s, header reader c "N/A" ++ [Console (MsgNoUID c)]).
Proof.
  intros H. unfold_card. rewrite H.
  destruct (tagUID_of c) as [t|]; simpl in *; [|done]. by rewrite H.
Qed.

(** Lookup hit: straight to the [try] block with the value read. *)
Lemma on_card_hit reader c s t :
  tagUID_of c = Some t → truthy_string t = true →
  truthy (get (TAG_KEY_MAPPING s) t) = true →
  on_card p e reader c s =
  (Ok tt, s,
   header reader c t ++ events (dispatch p e t (get (TAG_KEY_MAPPING s) t)) s).
Proof.
  intros Ht Hne Hv. unfold_card. rewrite Ht. simpl. rewrite Hne. simpl.
  rewrite Hv. simpl. unfold events. by rewrite dispatch_eq.
Qed.

(** Lookup miss and an empty name: the operator declined. *)
Lemma on_card_decline reader c s t :
  tagUID_of c = Some t → truthy_string t = true →
  truthy (get (TAG_KEY_MAPPING s) t) = false →
  toLowerCase (trim (answer e)) = EmptyString →
  on_card p e reader c s =
  (Ok tt, s, header reader c t ++ asking t ++ [Console MsgSkipped]).
Proof.
  intros Ht Hne Hv Ha. unfold_card. rewrite Ht. simpl. rewrite Hne. simpl.
  rewrite Hv. simpl. by rewrite Ha.
Qed.

(** Lookup miss and a name that fails the [in] test: validation failure. *)
Lemma on_card_reject reader c s t a :
  tagUID_of c = Some t → truthy_string t = true →
  truthy (get (TAG_KEY_MAPPING s) t) = false →
  toLowerCase (trim (answer e)) = a → truthy_string a = true →
  table_has p a = false →
  on_card p e reader c s =
  (Ok tt, s,
   header reader c t ++ asking t
   ++ [Console (MsgInvalidKey a);
       Console (MsgAvailableKeys (without_arrow (table_keys p)))]).
Proof.
  intros Ht Hne Hv Ha Hta Hin.
  assert (trim (toLowerCase a) = a) as Hn by (rewrite <- Ha; apply normalized_twice).
  unfold_card. rewrite Ht. simpl. rewrite Hne. simpl. rewrite Hv. simpl.
  rewrite Ha, eqb_empty, Hta. simpl. rewrite Hta, Hn. by rewrite Hin.
Qed.

(** Lookup miss and a name that passes the [in] test: assign, save, and on
    to the [try] block. *)
Lemma on_card_assign reader c s t a :
  tagUID_of c = Some t → truthy_string t = true →
  truthy (get (TAG_KEY_MAPPING s) t) = false →
  toLowerCase (trim (answer e)) = a → truthy_string a = true →
  table_has p a = true →
  on_card p e reader c s =
  (Ok tt, assigned e s t a,
   header reader c t ++ asking t ++ saving e
   ++ [Console (MsgAssigned a t); Console MsgSaved]
   ++ events (dispatch p e t (Some (VString a))) (assigned e s t a)).
Proof.
  intros Ht Hne Hv Ha Hta Hin.
  assert (trim (toLowerCase a) = a) as Hn by (rewrite <- Ha; apply normalized_twice).
  unfold_card. rewrite Ht. simpl. rewrite Hne. simpl. rewrite Hv. simpl.
  rewrite Ha, eqb_empty, Hta. simpl. rewrite Hta, Hn, Hin. simpl.
  unfold events, assigned, saving.
  destruct (mappings_writable e); simpl; by rewrite !dispatch_eq.
Qed.

End Handler.

(** ** The key tables *)

Section Tables.
Import JS JSFacts.

Lemma action_names_has p a : a ∈ action_names p → table_has p a = true.
Proof. destruct p; apply has_names. Qed.

Lemma table_has_spec p a :
  table_has p a = true ↔ a ∈ action_names p ∨ a ∈ Object_prototype_keys.
Proof. destruct p; apply has_spec. Qed.

Lemma action_names_truthy p a : a ∈ action_names p → truthy_string a = true.
Proof.
  revert a. apply Forall_forall. destruct p; repeat constructor.
Qed.


(** The inherited names are not action names. *)
Lemma action_names_not_inherited p a :
  a ∈ action_names p → inherited a = false.
Proof.
  revert a. apply Forall_forall. destruct p; repeat constructor.
Qed.

(** The two tables, name by name: the Windows table has [esc] and otherwise
    the names of the macOS table. *)
Lemma table_has_esc k :
  table_has Windows k = table_has MacOS k || String.eqb k "esc".
Proof.
  unfold table_has, has, lookup, KEY_MAPPINGS, KEY_CODES. cbn [own].
  repeat match goal with
         | |- context [String.eqb k ?x] =>
             destruct (String.eqb_spec k x) as [->|_]; [reflexivity|]
         end.
  by destruct (inherited k).
Qed.

End Tables.

(** ** Case analysis of one card event *)

Section Paths.
Import JS JSFacts.
Variable p : platform.

Lemma on_card_path e reader c s : path p e reader c s.
Proof.
  destruct (from_option truthy_string false (tagUID_of c)) eqn:Hu.
  2: { apply path_no_uid. by apply on_card_no_uid. }
  destruct (tagUID_of c) as [t|] eqn:Ht; [simpl in Hu|done].
  destruct (truthy (get (TAG_KEY_MAPPING s) t)) eqn:Hv.
  { eapply path_hit; eauto using on_card_hit. }
  destruct (truthy_string (toLowerCase (trim (answer e)))) eqn:Ha.
  2: { eapply path_decline; eauto. apply on_card_decline; auto.
       by destruct (toLowerCase (trim (answer e))). }
  destruct (table_has p (toLowerCase (trim (answer e)))) eqn:Hin.
  - eapply path_assign; eauto using on_card_assign.
  - eapply path_reject; eauto using on_card_reject.
Qed.

(** An identifier with a truthy entry keeps that entry whatever is tapped. *)
Lemma on_card_keeps e reader c s t :
  truthy (get (TAG_KEY_MAPPING s) t) = true →
  get (TAG_KEY_MAPPING (final (on_card p e reader c) s)) t
  = get (TAG_KEY_MAPPING s) t.
Proof.
  intros Hv. unfold final.
  destruct (on_card_path e reader c s)
    as [->|? ? ? ? ->|? ? ? ->|? ? ? ? ? ? ->|t' a ? Hv' ? ? ->]; try done.
  simpl. apply get_set_ne. intros ->. congruence.
Qed.

Lemma run_keeps taps s t :
  truthy (get (TAG_KEY_MAPPING s) t) = true →
  get (TAG_KEY_MAPPING (run p taps s)) t = get (TAG_KEY_MAPPING s) t.
Proof.
  revert s. induction taps as [|x taps IH]; intros s Hv; simpl; [done|].
  unfold on_tap. rewrite IH; rewrite on_card_keeps; done.
Qed.

(** What the program writes into the table is validated. *)
Lemma validated_empty : validated p ∅.
Proof. intros k v H. by rewrite lookup_empty in H. Qed.

Lemma validated_set o t a :
  validated p o → trim a = a → toLowerCase a = a → table_has p a = true →
  validated p (set o t (VString a)).
Proof.
  intros Ho ? ? ? k v. unfold set.
  destruct (o !! t), (String.eqb t "__proto__"); try apply Ho;
    (destruct (decide (t = k)) as [->|Hne];
     [rewrite lookup_insert_eq; intros [= <-]; eauto
     |rewrite lookup_insert_ne by done; apply Ho]).
Qed.

Lemma on_card_validated e reader c s :
  validated p (TAG_KEY_MAPPING s) →
  validated p (TAG_KEY_MAPPING (final (on_card p e reader c) s)).
Proof.
  intros Hs. unfold final.
  destruct (on_card_path e reader c s)
    as [->|? ? ? ? ->|? ? ? ->|? ? ? ? ? ? ->|t a ? ? Ha Hin ->]; try done.
  simpl. apply validated_set; auto; rewrite <- Ha.
  - by rewrite trim_toLowerCase, trim_idem.
  - apply toLowerCase_idem.
Qed.

Lemma run_validated taps s :
  validated p (TAG_KEY_MAPPING s) → validated p (TAG_KEY_MAPPING (run p taps s)).
Proof.
  revert s. induction taps as [|x taps IH]; intros s Hs; simpl; [done|].
  apply IH. by apply on_card_validated.
Qed.

End Paths.

(** ** Saving, loading and pressing keys *)

Section Effects.
Import JS JSFacts.
Variable p : platform.
Variable e : env.

Lemma saveMappings_eq s :
  saveMappings e s
  = (Ok tt,
     mkState (TAG_KEY_MAPPING s)
       (if mappings_writable e then Some (JSONObject (TAG_KEY_MAPPING s))
        else MAPPINGS_FILE s),
     saving e).
Proof.
  unfold_M. unfold saving. destruct s as [o f]; simpl.
  by destruct (mappings_writable e).
Qed.

(** Loading a readable file that holds an object replaces the table. *)
Lemma loadMappings_object o o' :
  mappings_readable e = true →
  loadMappings e (mkState o (Some (JSONObject o')))
  = (Ok tt, mkState o' (Some (JSONObject o')), [Console (MsgLoaded (size o'))]).
Proof. intros Hr. unfold_M. simpl. by rewrite Hr. Qed.

Ltac pressKey_cases v :=
  destruct p, v as [[?|?]|]; simpl; try done;
  [ unfold pressKey_win; destruct (has KEY_MAPPINGS _); simpl; [|done];
    destruct (lookup KEY_MAPPINGS _); try done;
    unfold_M; by destruct (script_writable e), (exec_succeeds e)
  | unfold pressKey_mac;
    destruct (lookup KEY_CODES _); try done;
    unfold_M; by destruct (exec_succeeds e) ].

(** [pressKey] prints nothing itself. *)
Lemma pressKey_reports v s :
  reports_unknown_key (events (pressKey p e v) s) = false.
Proof. pressKey_cases v. Qed.

(** A name that is in normal form and passes the [in] test is not rejected
    as unknown. *)
Lemma pressKey_known a s k l :
  trim a = a → toLowerCase a = a → table_has p a = true →
  outcome (pressKey p e (Some (VString a))) s ≠ Throw (UnknownKey k l).
Proof.
  intros Ht Hl Hin. destruct p; simpl in *.
  - unfold pressKey_win. rewrite Hl, Ht, Hin. simpl.
    destruct (lookup KEY_MAPPINGS a); try done.
    unfold_M. by destruct (script_writable e), (exec_succeeds e).
  - unfold pressKey_mac. rewrite Hl. unfold has in Hin.
    destruct (lookup KEY_CODES a); try done;
      unfold_M; by destruct (exec_succeeds e).
Qed.

(** A value that is not a string has no [toLowerCase]. *)
Lemma pressKey_other b s :
  outcome (pressKey p e (Some (VOther b))) s = Throw TypeError.
Proof. by destruct p. Qed.

Lemma dispatch_reports t v s :
  (∀ k l, outcome (pressKey p e v) s ≠ Throw (UnknownKey k l)) →
  reports_unknown_key (events (dispatch p e t v) s) = false.
Proof.
  intros Hv. rewrite dispatch_events. unfold reports_unknown_key.
  rewrite !existsb_app. fold (reports_unknown_key (events (pressKey p e v) s)).
  rewrite pressKey_reports. simpl.
  destruct (outcome (pressKey p e v) s) as [|[]]; try done.
  by edestruct Hv.
Qed.

(** With a validated table, whatever the handler reads for a tag is known
    to [pressKey]. *)
Lemma validated_get_known o t s k l :
  validated p o →
  outcome (pressKey p e (get o t)) s ≠ Throw (UnknownKey k l).
Proof.
  intros Ho. unfold get. destruct (o !! t) as [v|] eqn:E.
  - destruct (Ho _ _ E) as (a & -> & ? & ? & ?). by apply pressKey_known.
  - destruct (inherited t); [by rewrite pressKey_other|by destruct p].
Qed.

Lemma on_card_reports reader c s :
  validated p (TAG_KEY_MAPPING s) →
  reports_unknown_key (events (on_card p e reader c) s) = false.
Proof.
  intros Hs. unfold events at 1.
  destruct (on_card_path p e reader c s)
    as [->|t ? ? ? ->|? ? ? ->|? ? ? ? ? ? ->|t a ? ? Ha Hin ->]; try done;
    simpl.
  - apply dispatch_reports. intros k l. by apply validated_get_known.
  - unfold reports_unknown_key. rewrite existsb_app. simpl.
    rewrite orb_false_iff. split; [unfold saving; by destruct (mappings_writable e)|].
    apply dispatch_reports. intros k l.
    apply pressKey_known; auto; rewrite <- Ha.
    + by rewrite trim_toLowerCase, trim_idem.
    + apply toLowerCase_idem.
Qed.

End Effects.

(** * The specification's properties *)

Section Specification.
Import JS JSFacts.

Lemma dispatch_prompted p e t v s : prompted (events (dispatch p e t v) s) = false.
Proof.
  rewrite dispatch_events. unfold prompted. rewrite !existsb_app.
  fold (prompted (events (pressKey p e v) s)). rewrite pressKey_prompted.
  by destruct (outcome (pressKey p e v) s).
Qed.


(** A reply whose normal form is empty, for an identifier that reads as
    [undefined]: nothing changes and nothing is given to [exec]. *)
Lemma empty_name_effects p e reader c s t :
  tagUID_of c = Some t → get (TAG_KEY_MAPPING s) t = None →
  toLowerCase (trim (answer e)) = EmptyString →
  final (on_card p e reader c) s = s
  ∧ get (TAG_KEY_MAPPING (final (on_card p e reader c) s)) t = None
  ∧ injected (events (on_card p e reader c) s) = false.
Proof.
  intros Ht Hv Ha.
  assert (final (on_card p e reader c) s = s
          ∧ injected (events (on_card p e reader c) s) = false) as [Hs Hi].
  { unfold final, events.
    destruct (on_card_path p e reader c s)
      as [->|t' Ht' ? Hv' ->|? ? ? ->|? ? ? ? ? ? ->|t' a ? ? Ha' Hin ->];
      try done.
    - rewrite Ht in Ht'. injection Ht' as <-. by rewrite Hv in Hv'.
    - rewrite Ha in Ha'. subst a. by destruct p. }
  by rewrite Hs.
Qed.

(** C3. For a tag identifier with no stored mapping, an empty reply to the
    question leaves the table and the file as they were, creates no entry
    for the identifier, and gives no command to [exec]. *)
Theorem decline_creates_nothing p e reader c s t :
  tagUID_of c = Some t → get (TAG_KEY_MAPPING s) t = None →
  answer e = EmptyString →
  final (on_card p e reader c) s = s
  ∧ get (TAG_KEY_MAPPING (final (on_card p e reader c) s)) t = None
  ∧ injected (events (on_card p e reader c) s) = false.
Proof.
  intros Ht Hv Ha. apply empty_name_effects; [done..|]. by rewrite Ha.
Qed.

(** C4. Once a tag identifier has a truthy entry, whatever cards are tapped
    afterwards, every event for that identifier finds the same entry, goes
    straight to the [try] block with it, asks no question, and leaves the
    table and the file as they were. *)
Theorem mapped_tag_idempotent p s t v taps e reader c :
  get (TAG_KEY_MAPPING s) t = Some v → truthy (Some v) = true →
  tagUID_of c = Some t → truthy_string t = true →
  let s' := run p taps s in
  get (TAG_KEY_MAPPING s') t = Some v
  ∧ final (on_card p e reader c) s' = s'
  ∧ prompted (events (on_card p e reader c) s') = false
  ∧ events (on_card p e reader c) s'
    = header reader c t ++ events (dispatch p e t (Some v)) s'.
Proof.
  intros Hv Htr Ht Hne. simpl.
  assert (get (TAG_KEY_MAPPING (run p taps s)) t = Some v) as Hv'.
  { rewrite run_keeps; [done|]. by rewrite Hv. }
  split; [done|]. unfold final, events.
  rewrite (on_card_hit p e reader c _ t), Hv'; auto; [|by rewrite Hv'].
  simpl. split; [done|]. split; [|done].
  apply dispatch_prompted.
Qed.


(** The handler sees the operator's reply only through its normal form. *)
Lemma on_card_answer p e a reader c s :
  toLowerCase (trim a) = toLowerCase (trim (answer e)) →
  on_card p (with_answer a e) reader c s = on_card p e reader c s.
Proof.
  destruct e as [a0 r w sw ex]. unfold with_answer. simpl. intros H.
  unfold on_card, askForKeyAssignment. simpl. rewrite H.
  destruct p; reflexivity.
Qed.

(** C9. A reply made of white space only is handled exactly as the empty
    reply: result, state and events of the handler are the same; so for a tag
    identifier with no stored mapping nothing is stored and no command is
    given to [exec]. *)
Theorem whitespace_answer_declines p e reader c s :
  whitespace_only (answer e) = true →
  on_card p e reader c s = on_card p (with_answer EmptyString e) reader c s
  ∧ ∀ t, tagUID_of c = Some t → get (TAG_KEY_MAPPING s) t = None →
      final (on_card p e reader c) s = s
      ∧ get (TAG_KEY_MAPPING (final (on_card p e reader c) s)) t = None
      ∧ injected (events (on_card p e reader c) s) = false.
Proof.
  intros Hw. apply trim_whitespace in Hw.
  assert (on_card p e reader c s
          = on_card p (with_answer EmptyString e) reader c s) as Heq.
  { symmetry. apply on_card_answer. by rewrite Hw. }
  split; [done|]. intros t Ht Hv. apply empty_name_effects; [done..|].
  by rewrite Hw.
Qed.

(** C5, counterexample. A mapping file that holds a name outside the table
    is loaded as it is; the tag then hits, no question is asked, and
    [pressKey] takes its unknown-key branch, on either platform. *)
Lemma loaded_name_reaches_unknown_key :
  let e := obliging EmptyString in
  let file := JSONObject {[ "04a224b2" := VString "banana" ]} in
  let s := final (loadMappings e) (startup (Some file)) in
  get (TAG_KEY_MAPPING s) "04a224b2" = Some (VString "banana")
  ∧ prompted (events (on_card Windows e "ACR122" (iso3 "04a224b2")) s) = false
  ∧ reports_unknown_key (events (on_card Windows e "ACR122" (iso3 "04a224b2")) s) = true
  ∧ reports_unknown_key (events (on_card MacOS e "ACR122" (iso3 "04a224b2")) s) = true.
Proof. vm_compute. done. Qed.

(** C5, amended. When every entry of the table is validated, it stays so
    whatever cards are tapped, and no event, be it a hit or a fresh
    assignment, makes [pressKey] take its unknown-key branch. *)
Theorem validated_table_never_unknown_key p s taps x :
  validated p (TAG_KEY_MAPPING s) →
  validated p (TAG_KEY_MAPPING (run p taps s))
  ∧ reports_unknown_key (events (on_tap p x) (run p taps s)) = false.
Proof.
  intros Hs. apply (run_validated p taps) in Hs. split; [done|].
  by apply on_card_reports.
Qed.

Lemma action_names_iff p k :
  k ∈ action_names p ↔ table_has p k = true ∧ inherited k = false.
Proof.
  rewrite table_has_spec. unfold inherited. split.
  - intros H. split; [by left|]. by apply (action_names_not_inherited p).
  - intros [[H|H] Hi]; [done|]. by rewrite bool_decide_eq_false in Hi.
Qed.

(** C6, counterexample. [esc] is an action name of the Windows table and not
    of the macOS table; a mapping to it, written on Windows, is an unknown
    key on macOS. *)
Lemma esc_only_on_windows :
  "esc" ∈ action_names Windows ∧ ("esc" ∉ action_names MacOS)
  ∧ table_has Windows "esc" = true ∧ table_has MacOS "esc" = false
  ∧ outcome (pressKey MacOS (obliging EmptyString) (Some (VString "esc")))
      (startup None)
    = Throw (UnknownKey "esc" (keys KEY_CODES)).
Proof.
  split; [by apply action_names_iff|]. split; [|done].
  rewrite action_names_iff. by intros [? _].
Qed.

(** C6, amended. The action names of the Windows table are those of the
    macOS table and [esc]; the same holds of the names the [in] test
    accepts. *)
Theorem tables_agree_up_to_esc k :
  (k ∈ action_names Windows ↔ k ∈ action_names MacOS ∨ k = "esc")
  ∧ table_has Windows k = table_has MacOS k || String.eqb k "esc".
Proof.
  split; [|apply table_has_esc].
  rewrite !action_names_iff, table_has_esc, orb_true_iff, String.eqb_eq.
  split; [tauto|]. intros [H| ->]; [tauto|]. split; [by right|done].
Qed.

(** The Windows [pressKey] depends on the name through its normal form
    only: names with the same normal form yield the same events and both
    settle or both fail. *)
Lemma pressKey_win_normalizes e k1 k2 s :
  toLowerCase (trim k1) = toLowerCase (trim k2) →
  events (pressKey Windows e (Some (VString k1))) s
  = events (pressKey Windows e (Some (VString k2))) s
  ∧ (outcome (pressKey Windows e (Some (VString k1))) s = Ok tt
     ↔ outcome (pressKey Windows e (Some (VString k2))) s = Ok tt).
Proof.
  intros H. unfold events, outcome. simpl. unfold pressKey_win.
  rewrite !trim_toLowerCase, H.
  destruct (has KEY_MAPPINGS _); simpl; [|done].
  by destruct (lookup KEY_MAPPINGS _).
Qed.

(** C7. The macOS [pressKey] does not trim: [" Left"] and ["left"] are equal
    after trimming and lower-casing, the Windows [pressKey] treats them
    alike, and the macOS one sends key code 123 for the latter and rejects
    the former as an unknown key. So a tag mapped to [" Left"] in the mapping
    file presses the left arrow on Windows and reports an unknown key on
    macOS. *)
Theorem pressKey_mac_does_not_trim :
  let e := obliging EmptyString in
  let s := startup None in
  let file := JSONObject {[ "04a224b2" := VString " Left" ]} in
  let s' := final (loadMappings e) (startup (Some file)) in
  toLowerCase (trim " Left") = toLowerCase (trim "left")
  ∧ pressKey Windows e (Some (VString " Left")) s
    = pressKey Windows e (Some (VString "left")) s
  ∧ pressKey MacOS e (Some (VString "left")) s
    = (Ok tt, s, [Exec (Osascript_key_code (Own 123))])
  ∧ pressKey MacOS e (Some (VString " Left")) s
    = (Throw (UnknownKey " Left" (keys KEY_CODES)), s, [])
  ∧ commands (events (on_card Windows e "ACR122" (iso3 "04a224b2")) s')
    = [PowerShell_SendWait "{LEFT}"]
  ∧ commands (events (on_card MacOS e "ACR122" (iso3 "04a224b2")) s') = []
  ∧ reports_unknown_key (events (on_card MacOS e "ACR122" (iso3 "04a224b2")) s')
    = true.
Proof. vm_compute. done. Qed.

(** A name that fails the [in] test, for an identifier that reads as falsy:
    the handler reports the validation failure, and neither the table, the
    file nor [exec] see anything of it. *)
Lemma rejected_name_effects p e reader c s t a :
  tagUID_of c = Some t → truthy_string t = true →
  truthy (get (TAG_KEY_MAPPING s) t) = false →
  toLowerCase (trim (answer e)) = a → truthy_string a = true →
  table_has p a = false →
  final (on_card p e reader c) s = s
  ∧ injected (events (on_card p e reader c) s) = false
  ∧ reports_invalid_key (events (on_card p e reader c) s) = true.
Proof.
  intros Ht Hne Hv Ha Hta Hin. unfold final, events.
  by rewrite (on_card_reject p e reader c s t a).
Qed.

Lemma constructor_not_action p : "constructor" ∉ action_names p.
Proof. rewrite action_names_iff. by intros [_ ?]. Qed.

(** C2. The reply [constructor] names no property of either table, yet it
    passes the [in] test through [Object.prototype]: the handler reports no
    validation failure, stores the name for the tag and writes the file; on
    macOS it goes on to give a command to [exec]. *)
Theorem inherited_name_is_assigned :
  let e := obliging "constructor" in
  let c := iso3 "04a224b2" in
  let o : gmap string value := {[ "04a224b2" := VString "constructor" ]} in
  ("constructor" ∉ action_names Windows) ∧ ("constructor" ∉ action_names MacOS)
  ∧ final (on_card Windows e "ACR122" c) (startup None)
    = mkState o (Some (JSONObject o))
  ∧ reports_invalid_key (events (on_card Windows e "ACR122" c) (startup None))
    = false
  ∧ final (on_card MacOS e "ACR122" c) (startup None)
    = mkState o (Some (JSONObject o))
  ∧ reports_invalid_key (events (on_card MacOS e "ACR122" c) (startup None))
    = false
  ∧ commands (events (on_card MacOS e "ACR122" c) (startup None))
    = [Osascript_key_code Inherited].
Proof.
  split; [apply constructor_not_action|].
  split; [apply constructor_not_action|].
  vm_compute. done.
Qed.

(** C10. Starting from the empty table, one tap answered with
    ["  Constructor "] leaves an entry whose name is trimmed and in lower
    case, but is no action name of the table. *)
Theorem written_name_outside_key_set :
  let x := mkTap (obliging "  Constructor ") "ACR122" (iso3 "04a224b2") in
  TAG_KEY_MAPPING (run Windows [x] (startup None)) !! "04a224b2"
  = Some (VString "constructor")
  ∧ TAG_KEY_MAPPING (run MacOS [x] (startup None)) !! "04a224b2"
    = Some (VString "constructor")
  ∧ trim "constructor" = "constructor"
  ∧ toLowerCase "constructor" = "constructor"
  ∧ ("constructor" ∉ action_names Windows)
  ∧ ("constructor" ∉ action_names MacOS).
Proof.
  repeat (split; [by vm_compute|]).
  split; apply constructor_not_action.
Qed.

(** ** The theorems at sample inputs *)

(** C3 at a sample input. *)
Lemma decline_creates_nothing_witness :
  let e := obliging EmptyString in
  let c := iso3 "04A224B2" in
  let s := startup None in
  (tagUID_of c = Some "04A224B2" ∧ get (TAG_KEY_MAPPING s) "04A224B2" = None
   ∧ answer e = EmptyString)
  ∧ final (on_card MacOS e "ACR122" c) s = s
  ∧ get (TAG_KEY_MAPPING (final (on_card MacOS e "ACR122" c) s)) "04A224B2" = None
  ∧ injected (events (on_card MacOS e "ACR122" c) s) = false.
Proof.
  split; [by repeat split|].
  by apply (decline_creates_nothing MacOS (obliging EmptyString) "ACR122"
              (iso3 "04A224B2") (startup None) "04A224B2").
Defined.

(** C4 at a sample input: the tag is mapped, another tag is assigned twice
    in between. *)
Lemma mapped_tag_idempotent_witness :
  let s := mkState {[ "04A224B2" := VString "right" ]} None in
  let other := mkTap (obliging "left") "ACR122" (iso3 "0495C1A2") in
  let e := obliging "up" in
  let c := iso3 "04A224B2" in
  let s' := run Windows [other; other] s in
  (get (TAG_KEY_MAPPING s) "04A224B2" = Some (VString "right")
   ∧ truthy (Some (VString "right")) = true
   ∧ tagUID_of c = Some "04A224B2" ∧ truthy_string "04A224B2" = true)
  ∧ get (TAG_KEY_MAPPING s') "04A224B2" = Some (VString "right")
  ∧ final (on_card Windows e "ACR122" c) s' = s'
  ∧ prompted (events (on_card Windows e "ACR122" c) s') = false
  ∧ events (on_card Windows e "ACR122" c) s'
    = header "ACR122" c "04A224B2"
      ++ events (dispatch Windows e "04A224B2" (Some (VString "right"))) s'.
Proof.
  split; [by repeat split|].
  by apply (mapped_tag_idempotent Windows
              (mkState {[ "04A224B2" := VString "right" ]} None)
              "04A224B2" (VString "right")
              [mkTap (obliging "left") "ACR122" (iso3 "0495C1A2");
               mkTap (obliging "left") "ACR122" (iso3 "0495C1A2")]
              (obliging "up") "ACR122" (iso3 "04A224B2")).
Defined.

(** C5 at a sample input: the empty table, then an assignment and two hits. *)
Lemma validated_table_never_unknown_key_witness :
  let x := mkTap (obliging "Enter") "ACR122" (iso3 "04A224B2") in
  validated MacOS (TAG_KEY_MAPPING (startup None))
  ∧ validated MacOS (TAG_KEY_MAPPING (run MacOS [x; x] (startup None)))
  ∧ reports_unknown_key (events (on_tap MacOS x) (run MacOS [x; x] (startup None)))
    = false.
Proof.
  split; [apply validated_empty|].
  apply (validated_table_never_unknown_key MacOS (startup None)).
  apply validated_empty.
Defined.


(** C9 at a sample input: a reply of three spaces. *)
Lemma whitespace_answer_declines_witness :
  let e := obliging "   " in
  let c := iso3 "04A224B2" in
  let s := startup None in
  whitespace_only (answer e) = true
  ∧ on_card Windows e "ACR122" c s
    = on_card Windows (with_answer EmptyString e) "ACR122" c s
  ∧ ∀ t, tagUID_of c = Some t → get (TAG_KEY_MAPPING s) t = None →
      final (on_card Windows e "ACR122" c) s = s
      ∧ get (TAG_KEY_MAPPING (final (on_card Windows e "ACR122" c) s)) t = None
      ∧ injected (events (on_card Windows e "ACR122" c) s) = false.
Proof.
  split; [done|].
  by apply (whitespace_answer_declines Windows (obliging "   ") "ACR122"
              (iso3 "04A224B2") (startup None)).
Defined.

End Specification.

(** * Further properties of the programs *)

(** ** The mapping file *)

Section MappingFile.
Import JS JSFacts.

Lemma loadMappings_missing e s :
  MAPPINGS_FILE s = None →
  loadMappings e s
  = (Ok tt,
     mkState (TAG_KEY_MAPPING s)
       (if mappings_writable e then Some (JSONObject (TAG_KEY_MAPPING s)) else None),
     saving e ++ [Console MsgCreated]).
Proof.
  intros Hf. unfold loadMappings, try_catch, existsSync, mbind, M_bind at 1.
  rewrite Hf. simpl. unfold mbind, M_bind. rewrite saveMappings_eq, Hf. simpl.
  by unfold console, emit.
Qed.

Lemma loadMappings_failure e s c :
  MAPPINGS_FILE s = Some c →
  mappings_readable e = false ∨ c = NotJSON →
  loadMappings e s
  = (Ok tt, s,
     [Console (MsgLoadError (if mappings_readable e then SyntaxError else ReadError));
      Console MsgStartingEmpty]).
Proof.
  intros Hf H. unfold_M. rewrite Hf. simpl. rewrite Hf.
  destruct (mappings_readable e); [|done].
  by destruct H as [?| ->].
Qed.

(** X1. [loadMappings] and [saveMappings] never throw: whatever the file
    system does and whatever the file holds, the error is caught inside. *)
Theorem mapping_file_errors_are_caught e s :
  outcome (loadMappings e) s = Ok tt ∧ outcome (saveMappings e) s = Ok tt.
Proof.
  split; [|unfold outcome; by rewrite saveMappings_eq].
  unfold outcome. destruct (MAPPINGS_FILE s) as [c|] eqn:Hf.
  - destruct (mappings_readable e) eqn:Hr.
    + destruct c as [|o].
      * rewrite (loadMappings_failure e s NotJSON); auto.
      * destruct s as [o0 f]. simpl in Hf. subst f.
        by rewrite loadMappings_object.
    + rewrite (loadMappings_failure e s c); auto.
  - by rewrite loadMappings_missing.
Qed.

(** X2. When the mapping file exists but cannot be read, or does not hold
    JSON, [loadMappings] leaves the table and the file as they were and
    prints the error and the notice of the empty start. *)
Theorem unusable_file_changes_nothing e s c :
  MAPPINGS_FILE s = Some c →
  mappings_readable e = false ∨ c = NotJSON →
  final (loadMappings e) s = s
  ∧ events (loadMappings e) s
    = [Console (MsgLoadError (if mappings_readable e then SyntaxError else ReadError));
       Console MsgStartingEmpty].
Proof.
  intros Hf H. unfold final, events. by rewrite (loadMappings_failure e s c).
Qed.

(** X3. When there is no mapping file and it can be written, [loadMappings]
    creates it with the table as it stands, leaves the table alone, and
    a further [loadMappings] then changes nothing. *)
Theorem missing_file_is_created e e2 s :
  MAPPINGS_FILE s = None → mappings_writable e = true →
  mappings_readable e2 = true →
  let s1 := final (loadMappings e) s in
  s1 = mkState (TAG_KEY_MAPPING s) (Some (JSONObject (TAG_KEY_MAPPING s)))
  ∧ events (loadMappings e) s = [Console MsgCreated]
  ∧ final (loadMappings e2) s1 = s1.
Proof.
  intros Hf Hw Hr. simpl. unfold final, events.
  rewrite loadMappings_missing by done. unfold saving. rewrite Hw. simpl.
  by rewrite loadMappings_object.
Qed.

(** X4. When there is no mapping file and it cannot be written either,
    [loadMappings] reports the failed write and nevertheless announces the
    new file; there is still no file, and the table is as it was. *)
Theorem missing_file_unwritable e s :
  MAPPINGS_FILE s = None → mappings_writable e = false →
  final (loadMappings e) s = s
  ∧ events (loadMappings e) s
    = [Console (MsgSaveError WriteError); Console MsgCreated].
Proof.
  intros Hf Hw. unfold final, events.
  rewrite loadMappings_missing by done. unfold saving. rewrite Hw. simpl.
  destruct s; simpl in *; by subst.
Qed.

(** X6. [askForKeyAssignment] asks once and touches neither table nor file.
    It resolves with [null] exactly when the reply is empty after trimming;
    otherwise with a name that is not empty and is already trimmed and in
    lower case. *)
Theorem askForKeyAssignment_contract e t s :
  final (askForKeyAssignment e t) s = s
  ∧ List.filter is_question (events (askForKeyAssignment e t) s) = [Question t]
  ∧ match outcome (askForKeyAssignment e t) s with
    | Ok None => trim (answer e) = EmptyString
    | Ok (Some k) =>
        k = toLowerCase (trim (answer e)) ∧ truthy_string k = true
        ∧ trim (answer e) ≠ EmptyString
        ∧ trim k = k ∧ toLowerCase k = k
    | Throw _ => False
    end.
Proof.
  unfold_M. simpl.
  destruct (String.eqb_spec (toLowerCase (trim (answer e))) EmptyString) as [E|E];
    simpl; (split; [done|]); (split; [done|]).
  - by destruct (trim (answer e)).
  - split; [done|]. split; [by destruct (toLowerCase (trim (answer e)))|].
    split; [by intros E'; rewrite E' in E|].
    split; [by rewrite trim_toLowerCase, trim_idem|apply toLowerCase_idem].
Qed.

End MappingFile.

(** ** The identifier of a card *)

Section Identifier.
Import JS JSFacts.

Lemma byte_of_hex_digits x :
  byte_of_hex (hex_digit (Byte.to_N x / 16)) (hex_digit (Byte.to_N x mod 16))
  = Some x.
Proof. destruct x; reflexivity. Qed.

Lemma all_hex_digits x r :
  all_hex (String (hex_digit (Byte.to_N x / 16))
             (String (hex_digit (Byte.to_N x mod 16)) r))
  = all_hex r.
Proof. destruct x; reflexivity. Qed.

Lemma all_hex_toString_hex d : all_hex (toString_hex d) = true.
Proof.
  induction d as [|x d IH]; [done|].
  cbn [toString_hex]. by rewrite all_hex_digits.
Qed.

Lemma all_hex_not_inherited t : all_hex t = true → inherited t = false.
Proof.
  intros Ht. unfold inherited. case_bool_decide as Hk; [|done].
  assert (Forall (fun k => all_hex k = false) Object_prototype_keys) as Hall
    by repeat constructor.
  rewrite Forall_forall in Hall. apply Hall in Hk. congruence.
Qed.

Lemma toString_hex_empty d : toString_hex d = EmptyString → d = [].
Proof. by destruct d. Qed.

Lemma tagUID_of_cases c t :
  tagUID_of c = Some t ∧ truthy_string t = true
  ↔ (card_type c = "TAG_ISO_14443_3" ∧ card_uid c = Some t ∧ t ≠ EmptyString)
    ∨ (card_type c = "TAG_ISO_14443_4"
       ∧ ∃ d, card_data c = Some d ∧ d ≠ [] ∧ t = toString_hex d).
Proof.
  unfold tagUID_of.
  destruct (String.eqb_spec (card_type c) "TAG_ISO_14443_3") as [E3|N3];
    destruct (String.eqb_spec (card_type c) "TAG_ISO_14443_4") as [E4|N4];
    try congruence; simpl.
  - destruct (card_uid c) as [u|] eqn:Hu; simpl.
    + destruct u as [|a u]; simpl.
      * split; [by intros [? ?]|]. intros [(_ & [= <-] & ?)|[? _]]; congruence.
      * split.
        -- intros [[= <-] _]. by left.
        -- intros [(_ & [= <-] & _)|[? _]]; [done|congruence].
    + split; [by intros [? ?]|]. intros [(_ & ? & _)|[? _]]; congruence.
  - destruct (card_data c) as [d|] eqn:Hd; simpl.
    + split.
      * intros [[= <-] Ht]. right. split; [done|]. exists d.
        split; [done|]. split; [|done]. by intros ->.
      * intros [[? _]|(_ & d' & [= <-] & Hne & ->)]; [congruence|].
        split; [done|]. destruct d; [done|]. reflexivity.
    + split; [by intros [? ?]|]. intros [[? _]|(_ & d & ? & _)]; congruence.
  - split; [by intros [? ?]|]. intros [[? _]|[? _]]; congruence.
Qed.

(** X7. The identifier the handler extracts and accepts is the UID of an
    ISO 14443-3 card, when it is not empty, or the hexadecimal text of the
    data of an ISO 14443-4 card, when there are data and they are not empty;
    nothing else. *)
Theorem tagUID_of_spec c t :
  tagUID_of c = Some t ∧ truthy_string t = true
  ↔ (card_type c = "TAG_ISO_14443_3" ∧ card_uid c = Some t ∧ t ≠ EmptyString)
    ∨ (card_type c = "TAG_ISO_14443_4"
       ∧ ∃ d, card_data c = Some d ∧ d ≠ [] ∧ t = toString_hex d).
Proof. apply tagUID_of_cases. Qed.

(** X8. A card that yields no identifier — of another type, an ISO 14443-3
    card without UID, an ISO 14443-4 card without data or with empty data —
    is warned about and otherwise ignored: table and file are as they were,
    the operator is not asked and no command is given to [exec]. *)
Theorem card_without_identifier_is_ignored p e reader c s :
  card_type c ≠ "TAG_ISO_14443_3" ∨ card_uid c = None
  ∨ card_uid c = Some EmptyString →
  card_type c ≠ "TAG_ISO_14443_4" ∨ card_data c = None ∨ card_data c = Some [] →
  final (on_card p e reader c) s = s
  ∧ events (on_card p e reader c) s
    = header reader c "N/A" ++ [Console (MsgNoUID c)]
  ∧ prompted (events (on_card p e reader c) s) = false
  ∧ injected (events (on_card p e reader c) s) = false.
Proof.
  intros H3 H4.
  assert (from_option truthy_string false (tagUID_of c) = false) as Hu.
  { destruct (tagUID_of c) as [t|] eqn:Ht; [simpl|done].
    destruct (truthy_string t) eqn:Htr; [exfalso|done].
    destruct (proj1 (tagUID_of_cases c t) (conj Ht Htr))
      as [(E & Hu & Hne)|(E & d & Hd & Hne & _)].
    - destruct H3 as [?|[?|?]]; congruence.
    - destruct H4 as [?|[?|?]]; congruence. }
  unfold final, events. by rewrite on_card_no_uid.
Qed.

Lemma toString_hex_inj d1 d2 :
  toString_hex d1 = toString_hex d2 → d1 = d2.
Proof.
  revert d2. induction d1 as [|x d1 IH]; intros [|y d2]; try done.
  cbn [toString_hex]. intros [= H1 H2 H3]. f_equal; [|by apply IH].
  pose proof (byte_of_hex_digits x) as Hx. rewrite H1, H2 in Hx.
  rewrite byte_of_hex_digits in Hx. congruence.
Qed.

(** X9. The identifier of an ISO 14443-4 card loses nothing of the data:
    two such cards with the same identifier have the same data. *)
Theorem iso4_identifier_injective c1 c2 d1 d2 :
  card_type c1 = "TAG_ISO_14443_4" → card_type c2 = "TAG_ISO_14443_4" →
  card_data c1 = Some d1 → card_data c2 = Some d2 →
  tagUID_of c1 = tagUID_of c2 → d1 = d2.
Proof.
  intros E1 E2 H1 H2. unfold tagUID_of. rewrite E1, E2, H1, H2. simpl.
  intros [= H]. by apply toString_hex_inj.
Qed.

(** X10. An identifier made by [toString_hex] is never a property name of
    [Object.prototype]: reading it from the table is reading the own
    property, and assigning to it creates or updates the own property. *)
Theorem hex_identifier_is_plain_key (o : gmap string value) d v :
  get o (toString_hex d) = o !! toString_hex d
  ∧ set o (toString_hex d) v = <[toString_hex d := v]> o.
Proof.
  pose proof (all_hex_toString_hex d) as Hh.
  unfold get, set. rewrite (all_hex_not_inherited _ Hh).
  destruct (o !! toString_hex d); [done|]. split; [done|].
  destruct (String.eqb_spec (toString_hex d) "__proto__") as [E|_]; [|done].
  by rewrite E in Hh.
Qed.

End Identifier.

(** ** What one card event does *)

Section Event.
Import JS JSFacts.

Lemma own_elem {A} (tbl : list (string * A)) k a :
  own tbl k = Some a → (k, a) ∈ tbl.
Proof.
  induction tbl as [|[k' a'] r IH]; simpl; [done|].
  destruct (String.eqb_spec k k') as [->|_].
  - intros [= ->]. by left.
  - intros H. right. auto.
Qed.

(** No code of the Windows table holds a double quote, so the escaping in
    [pressKey] leaves the codes as they are. *)
Lemma KEY_MAPPINGS_unescaped k code :
  own KEY_MAPPINGS k = Some code →
  replaceAll double_quote (String backtick (String double_quote EmptyString)) code
  = code.
Proof.
  intros H%own_elem.
  assert (Forall (fun kc : string * string =>
            replaceAll double_quote
              (String backtick (String double_quote EmptyString)) kc.2 = kc.2)
            KEY_MAPPINGS) as Hall by repeat constructor.
  rewrite Forall_forall in Hall. apply (Hall (k, code) H).
Qed.

Lemma pressKey_pressed p e v s : pressed p e v s.
Proof.
  destruct p, v as [[k|b]|]; try by (eapply pressed_not; [reflexivity|done..]).
  - simpl. unfold pressKey_win, has, lookup.
    destruct (own KEY_MAPPINGS (trim (toLowerCase k))) as [code|] eqn:Ho; simpl.
    + destruct (script_writable e) eqn:Hw.
      * eapply pressed_win; eauto. simpl. unfold pressKey_win, has, lookup.
        rewrite Ho. simpl. rewrite (KEY_MAPPINGS_unescaped _ _ Ho), Hw.
        unfold_M. by destruct (exec_succeeds e).
      * eapply (pressed_not _ _ _ _ WriteError); [|done..]. simpl.
        unfold pressKey_win, has, lookup. rewrite Ho. simpl. rewrite Hw.
        by unfold_M.
    + destruct (inherited (trim (toLowerCase k))) eqn:Hi.
      * eapply (pressed_not _ _ _ _ TypeError); [|done..]. simpl.
        unfold pressKey_win, has, lookup. by rewrite Ho, Hi.
      * eapply (pressed_not _ _ _ _ (UnknownKey _ _)); [|done..]. simpl.
        unfold pressKey_win, has, lookup. by rewrite Ho, Hi.
  - destruct (lookup KEY_CODES (toLowerCase k)) as [n| |] eqn:Hl.
    + eapply pressed_mac; eauto; [by rewrite Hl|]. simpl. unfold pressKey_mac.
      rewrite Hl. unfold_M. by destruct (exec_succeeds e).
    + eapply pressed_mac; eauto; [by rewrite Hl|]. simpl. unfold pressKey_mac.
      rewrite Hl. unfold_M. by destruct (exec_succeeds e).
    + eapply (pressed_not _ _ _ _ (UnknownKey _ _)); [|done..]. simpl.
      unfold pressKey_mac. by rewrite Hl.
Qed.

Lemma quiet_observations pre :
  forallb is_quiet pre = true →
  commands pre = [] ∧ dispatch_errors pre = [] ∧ reports_pressed pre = false
  ∧ injected pre = false ∧ List.filter is_unlink pre = [].
Proof.
  induction pre as [|ev pre IH]; [done|]. simpl.
  intros [Hq Hpre]%andb_true_iff. destruct (IH Hpre) as (? & ? & ? & ? & ?).
  by destruct ev as [[]| | | |].
Qed.

(** The events of the handler: quiet ones, and then, if it gets to its
    [try] block, those of [pressKey] and the closing report. *)
Lemma on_card_view p e reader c s :
  ∃ pre, forallb is_quiet pre = true
    ∧ events (on_card p e reader c) s
      = pre ++ match dispatched p e c s with
               | Some v =>
                   events (pressKey p e v) (final (on_card p e reader c) s)
                   ++ closing v (outcome (pressKey p e v)
                                   (final (on_card p e reader c) s))
               | None => []
               end.
Proof.
  unfold dispatched, final, events at 1.
  destruct (from_option truthy_string false (tagUID_of c)) eqn:Hu.
  2: { rewrite on_card_no_uid by done. eexists. split; [|simpl].
       2: { destruct (tagUID_of c) as [t|]; simpl in *; [rewrite Hu|];
            by rewrite app_nil_r. }
       done. }
  destruct (tagUID_of c) as [t|] eqn:Ht; [simpl in Hu|done]. rewrite Hu.
  destruct (truthy (get (TAG_KEY_MAPPING s) t)) eqn:Hv.
  { rewrite (on_card_hit p e reader c s t) by done. simpl.
    rewrite dispatch_events.
    exists (header reader c t
            ++ [Console (MsgResolved t (get (TAG_KEY_MAPPING s) t));
                Console (MsgSimulating (get (TAG_KEY_MAPPING s) t))]).
    split; [done|]. by rewrite <- !app_assoc. }
  destruct (truthy_string (toLowerCase (trim (answer e)))) eqn:Ha.
  2: { rewrite (on_card_decline p e reader c s t) by
         (try done; by destruct (toLowerCase (trim (answer e)))).
       simpl. eexists. split; [|by rewrite app_nil_r]. done. }
  destruct (table_has p (toLowerCase (trim (answer e)))) eqn:Hin; simpl.
  - rewrite (on_card_assign p e reader c s t _) by done. simpl.
    rewrite dispatch_events.
    exists (header reader c t ++ asking t ++ saving e
            ++ [Console (MsgAssigned (toLowerCase (trim (answer e))) t);
                Console MsgSaved;
                Console (MsgResolved t
                           (Some (VString (toLowerCase (trim (answer e))))));
                Console (MsgSimulating
                           (Some (VString (toLowerCase (trim (answer e))))))]).
    split; [unfold saving; by destruct (mappings_writable e)|].
    by rewrite <- !app_assoc.
  - rewrite (on_card_reject p e reader c s t _) by done. simpl.
    eexists. split; [|by rewrite app_nil_r]. done.
Qed.

(** What the events of the handler show of [pressKey]. *)
Lemma on_card_observed p e reader c s :
  let ev := events (on_card p e reader c) s in
  let s1 := final (on_card p e reader c) s in
  commands ev
  = match dispatched p e c s with
    | Some v => commands (events (pressKey p e v) s1)
    | None => []
    end
  ∧ dispatch_errors ev
    = match dispatched p e c s with
      | Some v => match outcome (pressKey p e v) s1 with
                  | Throw err => [err]
                  | Ok _ => []
                  end
      | None => []
      end
  ∧ reports_pressed ev
    = match dispatched p e c s with
      | Some v => settled (outcome (pressKey p e v) s1)
      | None => false
      end
  ∧ injected ev
    = match dispatched p e c s with
      | Some v => injected (events (pressKey p e v) s1)
      | None => false
      end
  ∧ List.filter is_unlink ev
    = match dispatched p e c s with
      | Some v => List.filter is_unlink (events (pressKey p e v) s1)
      | None => []
      end.
Proof.
  simpl. destruct (on_card_view p e reader c s) as (pre & Hq & ->).
  destruct (quiet_observations pre Hq) as (Hc & He & Hp & Hi & Hu).
  generalize (final (on_card p e reader c) s). intros s1.
  unfold commands, dispatch_errors, reports_pressed, injected in *.
  rewrite !omap_app, !existsb_app, !List.filter_app, Hc, He, Hp, Hi, Hu.
  destruct (dispatched p e c s) as [v|]; [|done]. simpl.
  rewrite !omap_app, !existsb_app, !List.filter_app.
  unfold events, outcome.
  destruct (pressKey_pressed p e v s1)
    as [err -> Hne _|k code _ _ _ _ ->|k _ _ _ ->]; simpl;
    by destruct (exec_succeeds e).
Qed.

(** X11. Whatever the card, the table, the file and the operator's reply
    are, the handler gives at most one command to [exec]; on Windows it is
    [SendWait] on a code of [KEY_MAPPINGS], on macOS a key code read from
    [KEY_CODES] under a name the [in] test accepts. *)
Theorem commands_come_from_the_table e reader c s :
  (length (commands (events (on_card Windows e reader c) s)) ≤ 1)%nat
  ∧ Forall (fun cmd => ∃ k code, own KEY_MAPPINGS k = Some code
                                ∧ cmd = PowerShell_SendWait code)
      (commands (events (on_card Windows e reader c) s))
  ∧ (length (commands (events (on_card MacOS e reader c) s)) ≤ 1)%nat
  ∧ Forall (fun cmd => ∃ k, has KEY_CODES k = true
                           ∧ cmd = Osascript_key_code (lookup KEY_CODES k))
      (commands (events (on_card MacOS e reader c) s)).
Proof.
  destruct (on_card_observed Windows e reader c s) as (-> & _).
  destruct (on_card_observed MacOS e reader c s) as (-> & _).
  assert (∀ p v s1,
    (length (commands (events (pressKey p e v) s1)) ≤ 1)%nat
    ∧ (p = Windows →
       Forall (fun cmd => ∃ k code, own KEY_MAPPINGS k = Some code
                                   ∧ cmd = PowerShell_SendWait code)
         (commands (events (pressKey p e v) s1)))
    ∧ (p = MacOS →
       Forall (fun cmd => ∃ k, has KEY_CODES k = true
                              ∧ cmd = Osascript_key_code (lookup KEY_CODES k))
         (commands (events (pressKey p e v) s1)))) as Hp.
  { intros p v s1. unfold events.
    destruct (pressKey_pressed p e v s1)
      as [err -> _ _|k code -> _ Ho _ ->|k -> _ Hl ->]; simpl.
    - split; [lia|]. by split; intros _; constructor.
    - split; [lia|]. split; [|done]. intros _. constructor; [|constructor].
      exists (trim (toLowerCase k)), code. split; [exact Ho|done].
    - split; [lia|]. split; [done|]. intros _. constructor; [|constructor].
      exists (toLowerCase k). split; [|done]. unfold has.
      by destruct (lookup KEY_CODES (toLowerCase k)). }
  split; [|split; [|split]].
  - destruct (dispatched Windows e c s); [apply (Hp Windows)|simpl; lia].
  - destruct (dispatched Windows e c s); [by apply (Hp Windows)|constructor].
  - destruct (dispatched MacOS e c s); [apply (Hp MacOS)|simpl; lia].
  - destruct (dispatched MacOS e c s); [by apply (Hp MacOS)|constructor].
Qed.

(** X12. On Windows nothing is executed unless the temporary script could be
    written: when it cannot, the handler gives no command to [exec] and
    prints no message of success. *)
Theorem no_script_no_command e reader c s :
  script_writable e = false →
  injected (events (on_card Windows e reader c) s) = false
  ∧ reports_pressed (events (on_card Windows e reader c) s) = false.
Proof.
  intros Hw. destruct (on_card_observed Windows e reader c s) as (_ & _ & -> & -> & _).
  destruct (dispatched Windows e c s) as [v|]; [|done]. unfold events, outcome.
  destruct (pressKey_pressed Windows e v (final (on_card Windows e reader c) s))
    as [err -> _ _|k code _ _ _ Hw' _|k [=] _ _]; [done|congruence].
Qed.

(** X13. The message of success is printed exactly when a command was given
    to [exec] and [exec] reported no error. *)
Theorem success_is_reported_truthfully p e reader c s :
  reports_pressed (events (on_card p e reader c) s)
  = injected (events (on_card p e reader c) s) && exec_succeeds e.
Proof.
  destruct (on_card_observed p e reader c s) as (_ & _ & -> & -> & _).
  destruct (dispatched p e c s) as [v|]; [|done]. unfold events, outcome.
  destruct (pressKey_pressed p e v (final (on_card p e reader c) s))
    as [err -> _ _|k code _ _ _ _ ->|k _ _ _ ->]; simpl;
    by destruct (exec_succeeds e).
Qed.

(** X14. On Windows the removal of the temporary script is attempted once
    for every command given to [exec], whether or not [exec] reported an
    error. *)
Theorem script_is_removed e reader c s :
  length (List.filter is_unlink (events (on_card Windows e reader c) s))
  = length (commands (events (on_card Windows e reader c) s)).
Proof.
  destruct (on_card_observed Windows e reader c s) as (-> & _ & _ & _ & ->).
  destruct (dispatched Windows e c s) as [v|]; [|done]. unfold events.
  by destruct (pressKey_pressed Windows e v (final (on_card Windows e reader c) s))
    as [err -> _ _|k code _ _ _ _ ->|k [=] _ _].
Qed.

End Event.

(** ** What card events do to the table and the file *)

Section Store.
Import JS JSFacts.


Lemma set_dom (o : gmap string value) t v : dom o ⊆ dom (set o t v).
Proof.
  unfold set.
  destruct (o !! t), (String.eqb t "__proto__"); try done;
    apply dom_insert_subseteq.
Qed.

Lemma set_size (o : gmap string value) t v : (size (set o t v) ≤ S (size o))%nat.
Proof.
  unfold set.
  destruct (o !! t) eqn:E; [rewrite map_size_insert_Some by eauto; lia|].
  destruct (String.eqb t "__proto__"); [lia|].
  rewrite map_size_insert_None by done. lia.
Qed.

(** The state after the handler: as before, or with one assignment. *)
Lemma on_card_final p e reader c s :
  final (on_card p e reader c) s = s
  ∨ ∃ t, tagUID_of c = Some t
      ∧ truthy (get (TAG_KEY_MAPPING s) t) = false
      ∧ table_has p (toLowerCase (trim (answer e))) = true
      ∧ final (on_card p e reader c) s
        = assigned e s t (toLowerCase (trim (answer e))).
Proof.
  unfold final.
  destruct (on_card_path p e reader c s)
    as [H|? ? ? ? H|? ? ? H|? ? ? ? ? ? H|t a Ht Hv Ha Hin H];
    rewrite H; simpl; [by left..|].
  right. exists t. by subst a.
Qed.


(** X18. Card events never remove a property from the table, and each adds
    at most one. *)
Theorem table_only_grows p taps s :
  dom (TAG_KEY_MAPPING s) ⊆ dom (TAG_KEY_MAPPING (run p taps s))
  ∧ (size (TAG_KEY_MAPPING (run p taps s))
     ≤ size (TAG_KEY_MAPPING s) + length taps)%nat.
Proof.
  revert s. induction taps as [|x taps IH]; intros s; simpl.
  { split; [done|lia]. }
  destruct (IH (final (on_tap p x) s)) as [Hd Hs].
  assert (dom (TAG_KEY_MAPPING s) ⊆ dom (TAG_KEY_MAPPING (final (on_tap p x) s))
          ∧ (size (TAG_KEY_MAPPING (final (on_tap p x) s))
             ≤ S (size (TAG_KEY_MAPPING s)))%nat) as [Hd1 Hs1].
  { unfold on_tap.
    destruct (on_card_final p (tap_env x) (tap_reader x) (tap_card x) s)
      as [->|(t & _ & _ & _ & ->)]; [split; [done|lia]|].
    simpl. split; [apply set_dom|apply set_size]. }
  split; [by etrans|lia].
Qed.

(** X19. An entry that is falsy, such as an empty string put into the
    mapping file by hand, counts as no mapping: the operator is asked, and a
    valid reply overwrites the entry. *)
Theorem falsy_entry_is_reassigned p e reader c s t v a :
  tagUID_of c = Some t → truthy_string t = true →
  TAG_KEY_MAPPING s !! t = Some v → truthy (Some v) = false →
  toLowerCase (trim (answer e)) = a → a ∈ action_names p →
  prompted (events (on_card p e reader c) s) = true
  ∧ TAG_KEY_MAPPING (final (on_card p e reader c) s) !! t = Some (VString a).
Proof.
  intros Ht Hne Hv Hf Ha Hin. unfold final, events.
  rewrite (on_card_assign p e reader c s t a); auto.
  - simpl. split; [done|].
    unfold set. rewrite Hv. apply lookup_insert_eq.
  - unfold get. by rewrite Hv.
  - by eapply action_names_truthy.
  - by apply action_names_has.
Qed.

Lemma on_card_prompted p e reader c s :
  prompted (events (on_card p e reader c) s)
  = match tagUID_of c with
    | Some t => truthy_string t && negb (truthy (get (TAG_KEY_MAPPING s) t))
    | None => false
    end.
Proof.
  unfold events at 1.
  destruct (from_option truthy_string false (tagUID_of c)) eqn:Hu.
  2: { rewrite on_card_no_uid by done.
       destruct (tagUID_of c); simpl in *; by rewrite ?Hu. }
  destruct (tagUID_of c) as [t|] eqn:Ht; [simpl in Hu|done]. rewrite Hu.
  destruct (truthy (get (TAG_KEY_MAPPING s) t)) eqn:Hv.
  { rewrite (on_card_hit p e reader c s t) by done. simpl.
    apply dispatch_prompted. }
  destruct (truthy_string (toLowerCase (trim (answer e)))) eqn:Ha.
  2: { by rewrite (on_card_decline p e reader c s t) by
         (try done; by destruct (toLowerCase (trim (answer e)))). }
  destruct (table_has p (toLowerCase (trim (answer e)))) eqn:Hin.
  - by rewrite (on_card_assign p e reader c s t _) by done.
  - by rewrite (on_card_reject p e reader c s t _) by done.
Qed.


(** The state after the handler, in closed form. *)
Lemma on_card_final_eq p e reader c s :
  final (on_card p e reader c) s
  = match tagUID_of c with
    | Some t =>
        if truthy_string t && negb (truthy (get (TAG_KEY_MAPPING s) t))
           && truthy_string (toLowerCase (trim (answer e)))
           && table_has p (toLowerCase (trim (answer e)))
        then assigned e s t (toLowerCase (trim (answer e)))
        else s
    | None => s
    end.
Proof.
  unfold final.
  destruct (from_option truthy_string false (tagUID_of c)) eqn:Hu.
  2: { rewrite on_card_no_uid by done.
       destruct (tagUID_of c); simpl in *; by rewrite ?Hu. }
  destruct (tagUID_of c) as [t|] eqn:Ht; [simpl in Hu|done]. rewrite Hu.
  destruct (truthy (get (TAG_KEY_MAPPING s) t)) eqn:Hv.
  { by rewrite (on_card_hit p e reader c s t) by done. }
  destruct (truthy_string (toLowerCase (trim (answer e)))) eqn:Ha.
  2: { by rewrite (on_card_decline p e reader c s t) by
         (try done; by destruct (toLowerCase (trim (answer e)))). }
  destruct (table_has p (toLowerCase (trim (answer e)))) eqn:Hin.
  - by rewrite (on_card_assign p e reader c s t _) by done.
  - by rewrite (on_card_reject p e reader c s t _) by done.
Qed.

(** X23. As long as the operator does not reply [esc], the two programs do
    the same to the table and to the file, and ask the operator on the same
    events: a sequence of taps leaves both in the same state. *)
Theorem platforms_evolve_alike taps s :
  Forall (fun x => toLowerCase (trim (answer (tap_env x))) ≠ "esc") taps →
  run Windows taps s = run MacOS taps s
  ∧ Forall (fun x => ∀ s1,
              prompted (events (on_tap Windows x) s1)
              = prompted (events (on_tap MacOS x) s1)) taps.
Proof.
  intros H. split.
  - revert s. induction H as [|x taps Hx _ IH]; intros s; simpl; [done|].
    rewrite <- IH. f_equal. unfold on_tap. rewrite !on_card_final_eq.
    rewrite table_has_esc. apply String.eqb_neq in Hx. by rewrite Hx, orb_false_r.
  - eapply Forall_impl; [exact H|]. intros x _ s1. unfold on_tap.
    by rewrite !on_card_prompted.
Qed.

End Store.

(** ** From assignment to key press *)

Section Press.
Import JS JSFacts.



(** X25. The names the handler lists after a validation failure are exactly
    the action names of the table that do not start with [arrow]: every name
    offered is accepted, and the only action names not offered are the
    [arrow] aliases. *)
Theorem available_keys_listed p k :
  k ∈ without_arrow (table_keys p)
  ↔ k ∈ action_names p ∧ startsWith "arrow" k = false.
Proof.
  assert (k ∈ action_names p ∧ startsWith "arrow" k = false
          ↔ k ∈ without_arrow (action_names p)) as ->.
  { unfold without_arrow. rewrite !list_elem_of_In, filter_In, negb_true_iff.
    done. }
  assert (forallb (fun k => bool_decide (k ∈ without_arrow (action_names p)))
            (without_arrow (table_keys p)) = true
          ∧ forallb (fun k => bool_decide (k ∈ without_arrow (table_keys p)))
              (without_arrow (action_names p)) = true) as [H1 H2]
    by (destruct p; split; vm_compute; reflexivity).
  rewrite forallb_forall in H1, H2.
  split; intros Hk%list_elem_of_In.
  - apply H1 in Hk. by apply bool_decide_eq_true_1 in Hk.
  - apply H2 in Hk. by apply bool_decide_eq_true_1 in Hk.
Qed.

(** X26. The single-key program gives [exec] the command for key code 124 on
    every card event, whatever the card is, and never throws; the command
    is the one [pressKey] of the macOS program gives for [right] and for
    [arrowright]. *)
Theorem simple_program_presses_right e reader c s :
  (simple_on_card e reader c s).1.1 = Ok tt
  ∧ (simple_on_card e reader c s).1.2 = s
  ∧ simple_commands (simple_on_card e reader c s).2
    = [Osascript_key_code (Own 124)]
  ∧ pressRightArrow e s = pressKey MacOS e (Some (VString "right")) s
  ∧ pressRightArrow e s = pressKey MacOS e (Some (VString "arrowright")) s.
Proof.
  unfold simple_on_card, pressRightArrow. unfold_M. simpl.
  by destruct (exec_succeeds e).
Qed.

(** X27. For a tag mapped to [right], the macOS program gives [exec] the
    same commands as the single-key program, and settles alike. *)
Theorem mapped_right_is_single_key e reader c s t :
  tagUID_of c = Some t → truthy_string t = true →
  get (TAG_KEY_MAPPING s) t = Some (VString "right") →
  commands (events (on_card MacOS e reader c) s)
  = simple_commands (simple_on_card e reader c s).2
  ∧ reports_pressed (events (on_card MacOS e reader c) s) = exec_succeeds e.
Proof.
  intros Ht Hne Hv.
  destruct (on_card_observed MacOS e reader c s) as (-> & _ & -> & _).
  unfold dispatched. rewrite Ht, Hne, Hv. simpl.
  unfold simple_on_card, pressRightArrow, events, outcome. unfold_M. simpl.
  by destruct (exec_succeeds e).
Qed.

End Press.

(** ** The further theorems at sample inputs *)

Section Samples.
Import JS JSFacts.

(** X2 at a sample input: the file is not JSON. *)
Lemma unusable_file_changes_nothing_witness :
  let e := obliging EmptyString in
  let s := mkState {[ "04a224b2" := VString "left" ]} (Some NotJSON) in
  (MAPPINGS_FILE s = Some NotJSON
   ∧ (mappings_readable e = false ∨ NotJSON = NotJSON))
  ∧ final (loadMappings e) s = s
  ∧ events (loadMappings e) s
    = [Console (MsgLoadError SyntaxError); Console MsgStartingEmpty].
Proof.
  split; [split; [done|by right]|].
  apply (unusable_file_changes_nothing (obliging EmptyString)
           (mkState {[ "04a224b2" := VString "left" ]} (Some NotJSON)) NotJSON);
    [done|by right].
Defined.

(** X3 at a sample input: a first start. *)
Lemma missing_file_is_created_witness :
  let e := obliging EmptyString in
  let s := startup None in
  (MAPPINGS_FILE s = None ∧ mappings_writable e = true
   ∧ mappings_readable e = true)
  ∧ final (loadMappings e) s = mkState ∅ (Some (JSONObject ∅))
  ∧ events (loadMappings e) s = [Console MsgCreated]
  ∧ final (loadMappings e) (final (loadMappings e) s) = final (loadMappings e) s.
Proof.
  split; [done|].
  by apply (missing_file_is_created (obliging EmptyString) (obliging EmptyString)
              (startup None)).
Defined.

(** X4 at a sample input: a first start in a directory that cannot be
    written. *)
Lemma missing_file_unwritable_witness :
  let e := read_only EmptyString in
  let s := startup None in
  (MAPPINGS_FILE s = None ∧ mappings_writable e = false)
  ∧ final (loadMappings e) s = s
  ∧ events (loadMappings e) s
    = [Console (MsgSaveError WriteError); Console MsgCreated].
Proof.
  split; [done|].
  by apply (missing_file_unwritable (read_only EmptyString) (startup None)).
Defined.

(** X8 at a sample input: a card of another type. *)
Lemma card_without_identifier_is_ignored_witness :
  let e := obliging "left" in
  let c := mkCard "TAG_MIFARE" (Some "04a224b2") None in
  let s := startup None in
  (card_type c ≠ "TAG_ISO_14443_3" ∧ card_data c = None)
  ∧ final (on_card Windows e "ACR122" c) s = s
  ∧ events (on_card Windows e "ACR122" c) s
    = header "ACR122" c "N/A" ++ [Console (MsgNoUID c)]
  ∧ prompted (events (on_card Windows e "ACR122" c) s) = false
  ∧ injected (events (on_card Windows e "ACR122" c) s) = false.
Proof.
  split; [done|].
  apply (card_without_identifier_is_ignored Windows (obliging "left") "ACR122"
           (mkCard "TAG_MIFARE" (Some "04a224b2") None) (startup None));
    [by left|by right; left].
Defined.

(** X9 at a sample input: two cards that differ in their UID field only. *)
Lemma iso4_identifier_injective_witness :
  let c1 := mkCard "TAG_ISO_14443_4" None (Some [Byte.x04; Byte.xa2]) in
  let c2 := mkCard "TAG_ISO_14443_4" (Some "ff") (Some [Byte.x04; Byte.xa2]) in
  (card_type c1 = "TAG_ISO_14443_4" ∧ card_type c2 = "TAG_ISO_14443_4"
   ∧ card_data c1 = Some [Byte.x04; Byte.xa2]
   ∧ card_data c2 = Some [Byte.x04; Byte.xa2]
   ∧ tagUID_of c1 = tagUID_of c2)
  ∧ [Byte.x04; Byte.xa2] = [Byte.x04; Byte.xa2].
Proof.
  split; [done|].
  by apply (iso4_identifier_injective
              (mkCard "TAG_ISO_14443_4" None (Some [Byte.x04; Byte.xa2]))
              (mkCard "TAG_ISO_14443_4" (Some "ff") (Some [Byte.x04; Byte.xa2]))).
Defined.

(** X12 at a sample input: the temporary directory cannot be written. *)
Lemma no_script_no_command_witness :
  let e := mkEnv "left" true true false true in
  script_writable e = false
  ∧ injected (events (on_card Windows e "ACR122" (iso3 "04a224b2")) (startup None))
    = false
  ∧ reports_pressed
      (events (on_card Windows e "ACR122" (iso3 "04a224b2")) (startup None))
    = false.
Proof.
  split; [done|].
  by apply (no_script_no_command (mkEnv "left" true true false true) "ACR122"
              (iso3 "04a224b2") (startup None)).
Defined.


(** X19 at a sample input: the file maps the tag to the empty string. *)
Lemma falsy_entry_is_reassigned_witness :
  let e := obliging "up" in
  let c := iso3 "04a224b2" in
  let s := mkState {[ "04a224b2" := VString EmptyString ]} None in
  (tagUID_of c = Some "04a224b2" ∧ truthy_string "04a224b2" = true
   ∧ TAG_KEY_MAPPING s !! "04a224b2" = Some (VString EmptyString)
   ∧ truthy (Some (VString EmptyString)) = false
   ∧ toLowerCase (trim (answer e)) = "up" ∧ "up" ∈ action_names Windows)
  ∧ prompted (events (on_card Windows e "ACR122" c) s) = true
  ∧ TAG_KEY_MAPPING (final (on_card Windows e "ACR122" c) s) !! "04a224b2"
    = Some (VString "up").
Proof.
  assert ("up" ∈ action_names Windows) as Hin by (by apply action_names_iff).
  split; [by repeat split|].
  by apply (falsy_entry_is_reassigned Windows (obliging "up") "ACR122"
              (iso3 "04a224b2")
              (mkState {[ "04a224b2" := VString EmptyString ]} None)
              "04a224b2" (VString EmptyString) "up").
Defined.

(** X23 at a sample input. *)
Lemma platforms_evolve_alike_witness :
  let taps := [ mkTap (obliging "Escape") "ACR122" (iso3 "04a224b2");
                mkTap (obliging "banana") "ACR122" (iso3 "0495c1a2") ] in
  Forall (fun x => toLowerCase (trim (answer (tap_env x))) ≠ "esc") taps
  ∧ run Windows taps (startup None) = run MacOS taps (startup None)
  ∧ Forall (fun x => ∀ s1,
              prompted (events (on_tap Windows x) s1)
              = prompted (events (on_tap MacOS x) s1)) taps.
Proof.
  assert (Forall (fun x => toLowerCase (trim (answer (tap_env x))) ≠ "esc")
            [ mkTap (obliging "Escape") "ACR122" (iso3 "04a224b2");
              mkTap (obliging "banana") "ACR122" (iso3 "0495c1a2") ]) as H
    by (by repeat constructor).
  split; [done|].
  by apply (platforms_evolve_alike _ (startup None)).
Defined.


(** X27 at a sample input. *)
Lemma mapped_right_is_single_key_witness :
  let e := obliging EmptyString in
  let c := iso3 "04a224b2" in
  let s := mkState {[ "04a224b2" := VString "right" ]} None in
  (tagUID_of c = Some "04a224b2" ∧ truthy_string "04a224b2" = true
   ∧ get (TAG_KEY_MAPPING s) "04a224b2" = Some (VString "right"))
  ∧ commands (events (on_card MacOS e "ACR122" c) s)
    = simple_commands (simple_on_card e "ACR122" c s).2
  ∧ reports_pressed (events (on_card MacOS e "ACR122" c) s) = exec_succeeds e.
Proof.
  split; [done|].
  by apply (mapped_right_is_single_key (obliging EmptyString) "ACR122"
              (iso3 "04a224b2")
              (mkState {[ "04a224b2" := VString "right" ]} None) "04a224b2").
Defined.

End Samples.

(** * The programs on every JSON document *)

Ltac unfold_F :=
  unfold Full.final, Full.events, Full.outcome, Full.on_card, Full.dispatch,
    Full.saveMappings, Full.loadMappings, Full.console, Full.emit, Full.throw,
    Full.try_catch, Full.read_table, Full.write_table, Full.writeFileSync,
    Full.readFileSync, Full.existsSync, Full.JSON_parse, Full.settle,
    Full.aside, mbind, Full.M_bind, mret, Full.M_ret in *.

Section FullHandler.
Import JS JSFacts.
Variable p : platform.
Variable e : env.

Lemma Full_saveMappings_eq s :
  Full.saveMappings e s
  = (Ok tt,
     Full.mkState (Full.TAG_KEY_MAPPING s)
       (if mappings_writable e
        then Some (Full.JSON (Full.JSON_stringify (Full.TAG_KEY_MAPPING s)))
        else Full.MAPPINGS_FILE s),
     saving e).
Proof.
  unfold_F. unfold saving. destruct s as [tb f]; simpl.
  by destruct (mappings_writable e).
Qed.

(** Loading a readable document: the table becomes what [JSON.parse] makes
    of it, also when the count of its keys then throws. *)
Lemma Full_loadMappings_document tb d :
  mappings_readable e = true →
  Full.loadMappings e (Full.mkState tb (Some (Full.JSON d)))
  = (Ok tt,
     Full.mkState (Full.JSON_parse_document d) (Some (Full.JSON d)),
     match Full.Object_keys_length (Full.JSON_parse_document d) with
     | Ok n => [Console (MsgLoaded n)]
     | Throw err => [Console (MsgLoadError err); Console MsgStartingEmpty]
     end).
Proof.
  intros Hr. unfold_F. simpl. rewrite Hr. simpl.
  by destruct (Full.Object_keys_length (Full.JSON_parse_document d)).
Qed.

Lemma Full_dispatch_eq t v s :
  Full.dispatch p e t v s = (Ok tt, s, Full.trying p e t v).
Proof.
  unfold Full.trying. unfold_F. destruct (Full.printable_read v); simpl; [|done].
  destruct (pressKey p e (Full.seen v) (startup None)) as [[[[]|err] s'] tr];
    simpl; by rewrite ?app_nil_r, <- ?app_assoc.
Qed.

Ltac unfold_card :=
  unfold Full.on_card, Full.saveMappings, Full.console, Full.emit, Full.throw,
    Full.try_catch, Full.read_table, Full.write_table, Full.writeFileSync,
    Full.settle, Full.aside, askForKeyAssignment, console, emit,
    mbind, Full.M_bind, M_bind, mret, Full.M_ret, M_ret.

Lemma Full_on_card_no_uid reader c s :
  from_option truthy_string false (tagUID_of c) = false →
  Full.on_card p e reader c s
  = (Ok tt, s, header reader c "N/A" ++ [Console (MsgNoUID c)]).
Proof.
  intros H. unfold_card. rewrite H.
  destruct (tagUID_of c) as [t|]; simpl in *; [|done]. by rewrite H.
Qed.

(** The lookup throws: the handler throws, outside its [try] block. *)
Lemma Full_on_card_throws reader c s t err :
  tagUID_of c = Some t → truthy_string t = true →
  Full.get (Full.TAG_KEY_MAPPING s) t = Throw err →
  Full.on_card p e reader c s = (Throw err, s, header reader c t).
Proof.
  intros Ht Hne Hg. unfold_card. rewrite Ht. simpl. rewrite Hne. simpl.
  by rewrite Hg.
Qed.

Lemma Full_on_card_hit reader c s t v :
  tagUID_of c = Some t → truthy_string t = true →
  Full.get (Full.TAG_KEY_MAPPING s) t = Ok v → Full.truthy v = true →
  Full.on_card p e reader c s
  = (Ok tt, s, header reader c t ++ Full.trying p e t v).
Proof.
  intros Ht Hne Hg Hv. unfold_card. rewrite Ht. simpl. rewrite Hne. simpl.
  rewrite Hg. simpl. rewrite Hv. simpl. by rewrite Full_dispatch_eq.
Qed.

Lemma Full_on_card_decline reader c s t v :
  tagUID_of c = Some t → truthy_string t = true →
  Full.get (Full.TAG_KEY_MAPPING s) t = Ok v → Full.truthy v = false →
  toLowerCase (trim (answer e)) = EmptyString →
  Full.on_card p e reader c s
  = (Ok tt, s, header reader c t ++ asking t ++ [Console MsgSkipped]).
Proof.
  intros Ht Hne Hg Hv Ha. unfold_card. rewrite Ht. simpl. rewrite Hne. simpl.
  rewrite Hg. simpl. rewrite Hv. simpl. by rewrite Ha.
Qed.

Lemma Full_on_card_reject reader c s t v a :
  tagUID_of c = Some t → truthy_string t = true →
  Full.get (Full.TAG_KEY_MAPPING s) t = Ok v → Full.truthy v = false →
  toLowerCase (trim (answer e)) = a → truthy_string a = true →
  table_has p a = false →
  Full.on_card p e reader c s
  = (Ok tt, s,
     header reader c t ++ asking t
     ++ [Console (MsgInvalidKey a);
         Console (MsgAvailableKeys (without_arrow (table_keys p)))]).
Proof.
  intros Ht Hne Hg Hv Ha Hta Hin.
  assert (trim (toLowerCase a) = a) as Hn by (rewrite <- Ha; apply normalized_twice).
  unfold_card. rewrite Ht. simpl. rewrite Hne. simpl. rewrite Hg. simpl.
  rewrite Hv. simpl. rewrite Ha, eqb_empty, Hta. simpl. rewrite Hta, Hn.
  by rewrite Hin.
Qed.

(** The assignment throws: the handler throws after the question, and
    nothing is stored or saved. *)
Lemma Full_on_card_assign_throws reader c s t v a err :
  tagUID_of c = Some t → truthy_string t = true →
  Full.get (Full.TAG_KEY_MAPPING s) t = Ok v → Full.truthy v = false →
  toLowerCase (trim (answer e)) = a → truthy_string a = true →
  table_has p a = true →
  Full.set (Full.TAG_KEY_MAPPING s) t a = Throw err →
  Full.on_card p e reader c s = (Throw err, s, header reader c t ++ asking t).
Proof.
  intros Ht Hne Hg Hv Ha Hta Hin Hs.
  assert (trim (toLowerCase a) = a) as Hn by (rewrite <- Ha; apply normalized_twice).
  unfold_card. rewrite Ht. simpl. rewrite Hne. simpl. rewrite Hg. simpl.
  rewrite Hv. simpl. rewrite Ha, eqb_empty, Hta. simpl. rewrite Hta, Hn, Hin.
  simpl. by rewrite Hs.
Qed.

Lemma Full_on_card_assign reader c s t v a tb :
  tagUID_of c = Some t → truthy_string t = true →
  Full.get (Full.TAG_KEY_MAPPING s) t = Ok v → Full.truthy v = false →
  toLowerCase (trim (answer e)) = a → truthy_string a = true →
  table_has p a = true →
  Full.set (Full.TAG_KEY_MAPPING s) t a = Ok tb →
  Full.on_card p e reader c s
  = (Ok tt, Full.assigned e s tb,
     header reader c t ++ asking t ++ saving e
     ++ [Console (MsgAssigned a t); Console MsgSaved]
     ++ Full.trying p e t (Some (Full.Value (Full.JStr a)))).
Proof.
  intros Ht Hne Hg Hv Ha Hta Hin Hs.
  assert (trim (toLowerCase a) = a) as Hn by (rewrite <- Ha; apply normalized_twice).
  unfold_card. rewrite Ht. simpl. rewrite Hne. simpl. rewrite Hg. simpl.
  rewrite Hv. simpl. rewrite Ha, eqb_empty, Hta. simpl. rewrite Hta, Hn, Hin.
  simpl. rewrite Hs. simpl. unfold Full.assigned, saving.
  destruct (mappings_writable e); simpl; by rewrite !Full_dispatch_eq.
Qed.

(** Every run of the handler takes one of the seven ways. *)
Lemma Full_on_card_path reader c s : Full.path p e reader c s.
Proof.
  destruct (from_option truthy_string false (tagUID_of c)) eqn:Hu.
  2: { apply Full.path_no_uid; [done|]. by apply Full_on_card_no_uid. }
  destruct (tagUID_of c) as [t|] eqn:Ht; [simpl in Hu|done].
  destruct (Full.get (Full.TAG_KEY_MAPPING s) t) as [v|err] eqn:Hg.
  2: { eapply Full.path_throws; eauto. by apply Full_on_card_throws. }
  destruct (Full.truthy v) eqn:Hv.
  { eapply Full.path_hit; eauto. by apply Full_on_card_hit. }
  destruct (truthy_string (toLowerCase (trim (answer e)))) eqn:Ha.
  2: { assert (toLowerCase (trim (answer e)) = EmptyString) as Ha'
         by (by destruct (toLowerCase (trim (answer e)))).
       eapply Full.path_decline; eauto. by eapply Full_on_card_decline. }
  destruct (table_has p (toLowerCase (trim (answer e)))) eqn:Hin.
  2: { eapply Full.path_reject; eauto. by eapply Full_on_card_reject. }
  destruct (Full.set (Full.TAG_KEY_MAPPING s) t (toLowerCase (trim (answer e))))
    as [tb|err] eqn:Hs.
  - eapply Full.path_assign; eauto. by eapply Full_on_card_assign.
  - eapply Full.path_assign_throws; eauto. by eapply Full_on_card_assign_throws.
Qed.

End FullHandler.

(** ** Saving and reloading *)

Section FullFile.
Import JS JSFacts.

Lemma sanitize_idem v : Full.sanitize (Full.sanitize v) = Full.sanitize v.
Proof.
  revert v. fix IH 1. intros [|b|[m x|neg]|s|l|l]; simpl; try done.
  - f_equal. induction l as [|x l IHl]; simpl; [done|].
    f_equal; [apply IH|apply IHl].
  - f_equal. induction l as [|[k x] l IHl]; simpl; [done|].
    f_equal; [f_equal; apply IH|apply IHl].
Qed.

Lemma list_to_map_reverse_to_list (m : gmap string Full.json) :
  list_to_map (reverse (map_to_list m)) = m.
Proof.
  rewrite <- (list_to_map_to_list m) at 2. apply list_to_map_proper.
  - rewrite fmap_reverse, reverse_Permutation. apply NoDup_fst_map_to_list.
  - apply reverse_Permutation.
Qed.

(** The table after a save and a reload, kind by kind: the entries of an
    object are kept up to the infinities, which become [null]; of an array
    the elements only are kept, its holes and infinities as [null]. *)
Lemma reloaded_eq tb :
  Full.reloaded tb
  = match tb with
    | Full.TObj props => Full.TObj (Full.sanitize <$> props)
    | Full.TArr elems _ =>
        Full.TArr
          (map (fun o => Some (from_option Full.sanitize Full.JNull o)) elems) ∅
    | Full.TNum (Full.Infinite _) => Full.TNull
    | _ => tb
    end.
Proof.
  destruct tb as [|b|[m x|neg]|s|elems props|props]; try done;
    unfold Full.reloaded; simpl.
  - f_equal. unfold fmap. by rewrite map_map.
  - by rewrite list_to_map_reverse_to_list.
Qed.

Lemma stringify_reloaded tb :
  Full.JSON_stringify (Full.reloaded tb) = Full.JSON_stringify tb.
Proof.
  rewrite reloaded_eq.
  destruct tb as [|b|[m x|neg]|s|elems props|props]; try done; simpl.
  - f_equal. rewrite map_map. apply map_ext. intros [v|]; simpl; [|done].
    apply sanitize_idem.
  - f_equal. f_equal. rewrite <- map_fmap_compose. apply map_fmap_ext.
    intros k v _. apply sanitize_idem.
Qed.


Lemma Full_put_lookup_ne (props : gmap string Full.json) t k v :
  k ≠ t → Full.put props t v !! k = props !! k.
Proof.
  intros Hne. unfold Full.put.
  destruct (props !! t), (String.eqb t "__proto__"); by rewrite ?lookup_insert_ne.
Qed.

Lemma Full_put_lookup_eq (props : gmap string Full.json) t r v :
  Full.get (Full.TObj props) t = Ok r → Full.truthy r = false →
  Full.put props t v !! t = Some v.
Proof.
  unfold Full.get, Full.put, Full.inherit.
  destruct (props !! t); [intros _ _; apply lookup_insert_eq|]. simpl.
  destruct (inherited t) eqn:Hi; [by intros [= <-]|]. intros _ _.
  destruct (String.eqb_spec t "__proto__") as [->|_]; [done|].
  apply lookup_insert_eq.
Qed.

(** The state after [saveMappings] with a successful write and
    [loadMappings] with a successful read. *)
Lemma Full_save_load e1 e2 s :
  mappings_writable e1 = true → mappings_readable e2 = true →
  Full.final (Full.loadMappings e2) (Full.final (Full.saveMappings e1) s)
  = Full.mkState (Full.reloaded (Full.TAG_KEY_MAPPING s))
      (Some (Full.JSON (Full.JSON_stringify (Full.TAG_KEY_MAPPING s)))).
Proof.
  intros Hw Hr. unfold Full.final.
  rewrite Full_saveMappings_eq, Hw. simpl.
  by rewrite Full_loadMappings_document.
Qed.

(** The assignment path on an object table, for an action name. *)
Lemma Full_on_card_assign_object p e reader c s props t r a :
  Full.TAG_KEY_MAPPING s = Full.TObj props →
  tagUID_of c = Some t → truthy_string t = true →
  Full.get (Full.TAG_KEY_MAPPING s) t = Ok r → Full.truthy r = false →
  toLowerCase (trim (answer e)) = a → a ∈ action_names p →
  Full.on_card p e reader c s
  = (Ok tt,
     Full.assigned e s (Full.TObj (Full.put props t (Full.JStr a))),
     header reader c t ++ asking t ++ saving e
     ++ [Console (MsgAssigned a t); Console MsgSaved]
     ++ Full.trying p e t (Some (Full.Value (Full.JStr a)))).
Proof.
  intros Hs Ht Hne Hg Hr Ha Hin.
  apply (Full_on_card_assign p e reader c s t r a); auto.
  - by eapply action_names_truthy.
  - by apply action_names_has.
  - by rewrite Hs.
Qed.




(** X5. What a save and a reload make of the table, whatever
    [JSON.parse] had made it: after [saveMappings] with a successful write
    the table is as before, and [loadMappings] with a successful read, in
    the same process or in one started anew, leaves an object with all its
    entries, an array with its elements only and without the properties
    that are no indices, and a scalar; every infinity has become [null] and
    every hole of the array as well. A second save and reload changes
    nothing more. *)
Theorem save_load_normalizes e1 e2 s :
  mappings_writable e1 = true → mappings_readable e2 = true →
  let s1 := Full.final (Full.saveMappings e1) s in
  let s2 := Full.final (Full.loadMappings e2) s1 in
  Full.TAG_KEY_MAPPING s1 = Full.TAG_KEY_MAPPING s
  ∧ Full.final (Full.loadMappings e2) (Full.startup (Full.MAPPINGS_FILE s1)) = s2
  ∧ Full.TAG_KEY_MAPPING s2
    = match Full.TAG_KEY_MAPPING s with
      | Full.TObj props => Full.TObj (Full.sanitize <$> props)
      | Full.TArr elems _ =>
          Full.TArr
            (map (fun o => Some (from_option Full.sanitize Full.JNull o)) elems)
            ∅
      | Full.TNum (Full.Infinite _) => Full.TNull
      | _ => Full.TAG_KEY_MAPPING s
      end
  ∧ Full.final (Full.loadMappings e2) (Full.final (Full.saveMappings e1) s2)
    = s2.
Proof.
  intros Hw Hr. simpl. rewrite Full_save_load by done.
  assert (Full.final (Full.saveMappings e1) s
          = Full.mkState (Full.TAG_KEY_MAPPING s)
              (Some (Full.JSON (Full.JSON_stringify (Full.TAG_KEY_MAPPING s)))))
    as -> by (unfold Full.final; by rewrite Full_saveMappings_eq, Hw).
  split; [done|]. split.
  { unfold Full.final, Full.startup. simpl.
    by rewrite Full_loadMappings_document. }
  split; [simpl; apply reloaded_eq|].
  rewrite Full_save_load by done. simpl. rewrite stringify_reloaded.
  f_equal. unfold Full.reloaded at 1. by rewrite stringify_reloaded.
Qed.

(** X5 at a sample input: an array with a hole, an infinity and a property
    that is no index. *)
Lemma save_load_normalizes_witness :
  let e := obliging EmptyString in
  let s := Full.mkState
             (Full.TArr [Some (Full.JStr "right"); None;
                         Some (Full.JNum (Full.Infinite false))]
                        {[ "04a224b2" := Full.JStr "left" ]})
             None in
  let s1 := Full.final (Full.saveMappings e) s in
  let s2 := Full.final (Full.loadMappings e) s1 in
  (mappings_writable e = true ∧ mappings_readable e = true)
  ∧ Full.TAG_KEY_MAPPING s1 = Full.TAG_KEY_MAPPING s
  ∧ Full.final (Full.loadMappings e) (Full.startup (Full.MAPPINGS_FILE s1)) = s2
  ∧ Full.TAG_KEY_MAPPING s2
    = Full.TArr [Some (Full.JStr "right"); Some Full.JNull; Some Full.JNull] ∅
  ∧ Full.final (Full.loadMappings e) (Full.final (Full.saveMappings e) s2) = s2.
Proof.
  split; [done|].
  exact (save_load_normalizes (obliging EmptyString) (obliging EmptyString)
           (Full.mkState
              (Full.TArr [Some (Full.JStr "right"); None;
                          Some (Full.JNum (Full.Infinite false))]
                         {[ "04a224b2" := Full.JStr "left" ]})
              None) eq_refl eq_refl).
Defined.

End FullFile.

(** ** The [try] block *)

Section FullEvent.
Import JS JSFacts.
Variable p : platform.
Variable e : env.

(** [pressKey] does not look at the state. *)
Lemma pressKey_anywhere v s s' :
  outcome (pressKey p e v) s = outcome (pressKey p e v) s'
  ∧ events (pressKey p e v) s = events (pressKey p e v) s'.
Proof.
  unfold outcome, events.
  destruct p, v as [[k|b]|]; simpl; try done.
  - unfold pressKey_win. destruct (has KEY_MAPPINGS _); simpl; [|done].
    destruct (lookup KEY_MAPPINGS _); try done.
    unfold_M. by destruct (script_writable e), (exec_succeeds e).
  - unfold pressKey_mac. destruct (lookup KEY_CODES _); try done;
      unfold_M; by destruct (exec_succeeds e).
Qed.

(** What the events of the [try] block show. *)
Lemma Full_trying_observed t v :
  let r := outcome (pressKey p e (Full.seen v)) (startup None) in
  let tr := events (pressKey p e (Full.seen v)) (startup None) in
  if Full.printable_read v then
    commands (Full.trying p e t v) = commands tr
    ∧ dispatch_errors (Full.trying p e t v)
      = match r with Throw err => [err] | Ok _ => [] end
    ∧ reports_pressed (Full.trying p e t v) = settled r
    ∧ injected (Full.trying p e t v) = injected tr
  else
    commands (Full.trying p e t v) = []
    ∧ dispatch_errors (Full.trying p e t v) = [TypeError]
    ∧ reports_pressed (Full.trying p e t v) = false
    ∧ injected (Full.trying p e t v) = false.
Proof.
  simpl. unfold Full.trying. destruct (Full.printable_read v); [|done].
  unfold commands, dispatch_errors, reports_pressed, injected.
  rewrite !omap_app, !existsb_app. simpl.
  unfold events, outcome.
  destruct (pressKey_pressed p e (Full.seen v) (startup None))
    as [err -> Hne _|k code _ _ _ _ ->|k _ _ _ ->]; simpl;
    by destruct (exec_succeeds e).
Qed.

(** The events of the handler: quiet ones, and then, if it gets to its
    [try] block, those of the block. *)
Lemma Full_on_card_view reader c s :
  ∃ pre, forallb is_quiet pre = true
    ∧ Full.events (Full.on_card p e reader c) s
      = pre ++ match Full.dispatched p e c s with
               | Some v => Full.trying p e (default EmptyString (tagUID_of c)) v
               | None => []
               end.
Proof.
  unfold Full.dispatched, Full.events.
  destruct (Full_on_card_path p e reader c s)
    as [Hu H|t err Ht Hne Hg H|t v Ht Hne Hg Hv H|t v Ht Hne Hg Hv Ha H
        |t v a Ht Hne Hg Hv Ha Hta Hin H|t v a err Ht Hne Hg Hv Ha Hta Hin Hs H
        |t v a tb Ht Hne Hg Hv Ha Hta Hin Hs H]; rewrite H; simpl.
  - eexists. split; [|destruct (tagUID_of c) as [t|]; simpl in *;
                      [rewrite Hu|]; by rewrite app_nil_r]. done.
  - rewrite Ht, Hne, Hg. eexists. split; [|by rewrite app_nil_r]. done.
  - rewrite Ht, Hne, Hg, Hv. simpl. by exists (header reader c t).
  - rewrite Ht, Hne, Hg, Hv, Ha. simpl.
    eexists. split; [|by rewrite app_nil_r]. done.
  - rewrite Ht, Hne, Hg, Hv, Ha, Hta, Hin. simpl.
    eexists. split; [|by rewrite app_nil_r]. done.
  - rewrite Ht, Hne, Hg, Hv, Ha, Hta, Hin, Hs. simpl.
    eexists. split; [|by rewrite app_nil_r]. done.
  - rewrite Ht, Hne, Hg, Hv, Ha, Hta, Hin, Hs. simpl.
    exists (header reader c t ++ asking t ++ saving e
            ++ [Console (MsgAssigned a t); Console MsgSaved]).
    split; [unfold saving; by destruct (mappings_writable e)|].
    by rewrite <- !app_assoc.
Qed.

(** X15. An event that gets to the [try] block ends with exactly one of the
    message of success and the report of one error; an event that does not
    get there prints neither. When the value taken to the block cannot be
    put into the first message, the error reported is the [TypeError] of
    the template literal, and [pressKey] is not called: nothing is
    executed. Otherwise the error reported is the one [pressKey] failed
    with. *)
Theorem try_block_reports_one_outcome reader c s :
  let ev := Full.events (Full.on_card p e reader c) s in
  match Full.dispatched p e c s with
  | Some v =>
      if Full.printable_read v then
        match outcome (pressKey p e (Full.seen v)) (startup None) with
        | Ok _ => reports_pressed ev = true ∧ dispatch_errors ev = []
        | Throw err => reports_pressed ev = false ∧ dispatch_errors ev = [err]
        end
      else
        reports_pressed ev = false ∧ dispatch_errors ev = [TypeError]
        ∧ injected ev = false ∧ commands ev = []
  | None => reports_pressed ev = false ∧ dispatch_errors ev = []
  end.
Proof.
  simpl. destruct (Full_on_card_view reader c s) as (pre & Hq & ->).
  destruct (quiet_observations pre Hq) as (Hc & He & Hp & Hi & _).
  unfold commands, dispatch_errors, reports_pressed, injected in *.
  rewrite !omap_app, !existsb_app, Hc, He, Hp, Hi.
  destruct (Full.dispatched p e c s) as [v|]; [|done]. simpl.
  pose proof (Full_trying_observed (default EmptyString (tagUID_of c)) v) as H.
  simpl in H. unfold commands, dispatch_errors, reports_pressed, injected in H.
  destruct (Full.printable_read v).
  - destruct H as (_ & -> & -> & _).
    by destruct (outcome (pressKey p e (Full.seen v)) (startup None)).
  - by destruct H as (-> & -> & -> & ->).
Qed.

End FullEvent.

(** X15 at a sample input: the mapping file gives the tag an object with a
    property [toString]. The first message of the [try] block throws, the
    error is reported, and nothing is executed. *)
Lemma try_block_reports_one_outcome_witness :
  let d := Full.JObj [("04a224b2", Full.JObj [("toString", Full.JNum (Full.Finite 1 0))])] in
  let s := Full.final (Full.loadMappings (obliging EmptyString))
             (Full.startup (Some (Full.JSON d))) in
  let ev := Full.events
              (Full.on_card Windows (obliging EmptyString) "ACR122"
                 (iso3 "04a224b2")) s in
  reports_pressed ev = false ∧ dispatch_errors ev = [TypeError]
  ∧ injected ev = false ∧ commands ev = [].
Proof.
  exact (try_block_reports_one_outcome Windows (obliging EmptyString) "ACR122"
           (iso3 "04a224b2")
           (Full.final (Full.loadMappings (obliging EmptyString))
              (Full.startup
                 (Some (Full.JSON
                    (Full.JObj
                       [("04a224b2",
                         Full.JObj [("toString", Full.JNum (Full.Finite 1 0))])])))))).
Defined.

(** ** The table and the file over card events *)

Section FullStore.
Import JS JSFacts.

Lemma Full_get_throws tb t err :
  Full.get tb t = Throw err → tb = Full.TNull ∧ err = TypeError.
Proof.
  destruct tb as [|b|n|x|elems props|props]; simpl; try done.
  - by intros [= <-].
  - destruct (array_index t); [by destruct (String.get _ x)|].
    by destruct (String.eqb t "length").
  - destruct (array_index t) as [i|]; [by destruct (elems !! N.to_nat i) as [[]|]|].
    destruct (String.eqb t "length"); [done|]. by destruct (props !! t).
  - by destruct (props !! t).
Qed.

Lemma Full_set_throws tb t a err :
  Full.set tb t a = Throw err →
  (tb = Full.TNull ∧ err = TypeError)
  ∨ (err = RangeError ∧ t = "length"
     ∧ ∃ elems props, tb = Full.TArr elems props).
Proof.
  destruct tb as [|b|n|x|elems props|props]; simpl; try done.
  - intros [= <-]. by left.
  - destruct (array_index t); [done|].
    destruct (String.eqb_spec t "length") as [->|]; [|done].
    destruct (Full.to_length a); [done|]. intros [= <-]. right. eauto.
Qed.

Lemma Full_set_object props t a tb :
  Full.set (Full.TObj props) t a = Ok tb →
  tb = Full.TObj (Full.put props t (Full.JStr a)).
Proof. by intros [= <-]. Qed.

(** The handler leaves the state as it is, or alters it by one assignment
    followed by [saveMappings]. *)
Lemma Full_on_card_final p e reader c s :
  Full.final (Full.on_card p e reader c) s = s
  ∨ ∃ t v a tb, tagUID_of c = Some t
      ∧ Full.get (Full.TAG_KEY_MAPPING s) t = Ok v ∧ Full.truthy v = false
      ∧ toLowerCase (trim (answer e)) = a ∧ table_has p a = true
      ∧ Full.set (Full.TAG_KEY_MAPPING s) t a = Ok tb
      ∧ Full.final (Full.on_card p e reader c) s = Full.assigned e s tb.
Proof.
  unfold Full.final.
  destruct (Full_on_card_path p e reader c s)
    as [Hu H|t err Ht Hne Hg H|t v Ht Hne Hg Hv H|t v Ht Hne Hg Hv Ha H
        |t v a Ht Hne Hg Hv Ha Hta Hin H|t v a err Ht Hne Hg Hv Ha Hta Hin Hs H
        |t v a tb Ht Hne Hg Hv Ha Hta Hin Hs H]; rewrite H; simpl;
    [by left..|].
  right. exists t, v, a, tb. by rewrite Hs.
Qed.

(** An object stays an object. *)
Lemma Full_on_card_object p e reader c s props :
  Full.TAG_KEY_MAPPING s = Full.TObj props →
  ∃ props', Full.TAG_KEY_MAPPING (Full.final (Full.on_card p e reader c) s)
            = Full.TObj props'.
Proof.
  intros Hs.
  destruct (Full_on_card_final p e reader c s)
    as [->|(t & v & a & tb & _ & _ & _ & _ & _ & Hset & ->)]; [eauto|].
  rewrite Hs in Hset. apply Full_set_object in Hset as ->. simpl. eauto.
Qed.

Lemma Full_run_object p taps s props :
  Full.TAG_KEY_MAPPING s = Full.TObj props →
  ∃ props', Full.TAG_KEY_MAPPING (Full.run p taps s) = Full.TObj props'.
Proof.
  revert s props. induction taps as [|x taps IH]; intros s props Hs; simpl;
    [eauto|].
  destruct (Full_on_card_object p (tap_env x) (tap_reader x) (tap_card x) s
              props Hs) as [props' H'].
  by eapply IH.
Qed.

Lemma Full_on_card_in_sync p e reader c s :
  mappings_writable e = true → Full.in_sync s →
  Full.in_sync (Full.final (Full.on_card p e reader c) s).
Proof.
  intros Hw Hs.
  destruct (Full_on_card_final p e reader c s)
    as [->|(t & v & a & tb & _ & _ & _ & _ & _ & _ & ->)]; [done|].
  unfold Full.in_sync, Full.assigned. simpl. by rewrite Hw.
Qed.

(** X16. When the handler throws. On a table that is an object it never
    does, whatever [pressKey] does, and the table stays an object. On the
    table [null], which [loadMappings] leaves after reading a file that
    holds [null], it throws a [TypeError] for every card with an
    identifier. Whenever it throws, this is at the lookup in the table
    [null] or at the assignment of the length of an array table for a card
    whose identifier is [length]; table and file are then as before,
    nothing was executed and the [try] block was not reached. *)
Theorem card_handler_throws_outside_try p e reader c s :
  let r := Full.outcome (Full.on_card p e reader c) s in
  let s1 := Full.final (Full.on_card p e reader c) s in
  let ev := Full.events (Full.on_card p e reader c) s in
  (∀ props, Full.TAG_KEY_MAPPING s = Full.TObj props →
     r = Ok tt ∧ ∃ props', Full.TAG_KEY_MAPPING s1 = Full.TObj props')
  ∧ (Full.TAG_KEY_MAPPING s = Full.TNull →
     from_option truthy_string false (tagUID_of c) = true →
     r = Throw TypeError)
  ∧ (∀ e0,
       mappings_readable e0 = true →
       Full.TAG_KEY_MAPPING
         (Full.final (Full.loadMappings e0)
            (Full.startup (Some (Full.JSON Full.JNull))))
       = Full.TNull)
  ∧ (∀ err, r = Throw err →
       s1 = s ∧ injected ev = false ∧ reports_pressed ev = false
       ∧ dispatch_errors ev = []
       ∧ (err = TypeError ∧ Full.TAG_KEY_MAPPING s = Full.TNull
          ∨ err = RangeError ∧ tagUID_of c = Some "length"
            ∧ ∃ elems props, Full.TAG_KEY_MAPPING s = Full.TArr elems props)).
Proof.
  simpl. unfold Full.outcome, Full.final, Full.events.
  split; [|split; [|split]].
  - intros props Hs. split; [|by eapply Full_on_card_object].
    destruct (Full_on_card_path p e reader c s)
      as [Hu H|t err Ht Hne Hg H|t v Ht Hne Hg Hv H|t v Ht Hne Hg Hv Ha H
          |t v a Ht Hne Hg Hv Ha Hta Hin H|t v a err Ht Hne Hg Hv Ha Hta Hin Hx H
          |t v a tb Ht Hne Hg Hv Ha Hta Hin Hx H]; rewrite H; simpl; try done.
    + rewrite Hs in Hg. by apply Full_get_throws in Hg as [? _].
    + rewrite Hs in Hx. done.
  - intros Hs Hu. destruct (tagUID_of c) as [t|] eqn:Ht; [simpl in Hu|done].
    rewrite (Full_on_card_throws p e reader c s t TypeError); try done.
    by rewrite Hs.
  - intros e0 Hr. unfold Full.startup.
    by rewrite Full_loadMappings_document.
  - intros err.
    destruct (Full_on_card_path p e reader c s)
      as [Hu H|t err' Ht Hne Hg H|t v Ht Hne Hg Hv H|t v Ht Hne Hg Hv Ha H
          |t v a Ht Hne Hg Hv Ha Hta Hin H|t v a err' Ht Hne Hg Hv Ha Hta Hin Hx H
          |t v a tb Ht Hne Hg Hv Ha Hta Hin Hx H]; rewrite H; simpl; try done.
    + intros [= <-]. apply Full_get_throws in Hg as [-> ->]. repeat split.
      left. by destruct s.
    + intros [= <-]. repeat split.
      apply Full_set_throws in Hx as [[Hs ->]|(-> & -> & elems & props & Hs)].
      * by left.
      * right. eauto.
Qed.

(** X16 at a sample input: the mapping file holds [null]. *)
Lemma card_handler_throws_outside_try_witness :
  let e := obliging "right" in
  let c := iso3 "04a224b2" in
  let s := Full.final (Full.loadMappings e)
             (Full.startup (Some (Full.JSON Full.JNull))) in
  Full.TAG_KEY_MAPPING s = Full.TNull
  ∧ Full.outcome (Full.on_card Windows e "ACR122" c) s = Throw TypeError.
Proof.
  split.
  - exact (proj1 (proj2 (proj2
             (card_handler_throws_outside_try Windows (obliging "right")
                "ACR122" (iso3 "04a224b2")
                (Full.final (Full.loadMappings (obliging "right"))
                   (Full.startup (Some (Full.JSON Full.JNull)))))))
             (obliging "right") eq_refl).
  - exact (proj1 (proj2
             (card_handler_throws_outside_try Windows (obliging "right")
                "ACR122" (iso3 "04a224b2")
                (Full.final (Full.loadMappings (obliging "right"))
                   (Full.startup (Some (Full.JSON Full.JNull))))))
             eq_refl eq_refl).
Defined.

(** X21. Every change of the table is followed by a save: when the mapping
    file is up to date and every write succeeds, it is up to date after
    every card event; for a table that is an object, the file then holds
    an object with all entries of the table, its infinities as [null]. *)
Theorem file_stays_up_to_date p taps s :
  Full.in_sync s →
  Forall (fun x => mappings_writable (tap_env x) = true) taps →
  Full.in_sync (Full.run p taps s)
  ∧ ∀ props, Full.TAG_KEY_MAPPING s = Full.TObj props →
      ∃ props' d,
        Full.TAG_KEY_MAPPING (Full.run p taps s) = Full.TObj props'
        ∧ Full.MAPPINGS_FILE (Full.run p taps s) = Some (Full.JSON d)
        ∧ Full.JSON_parse_document d = Full.TObj (Full.sanitize <$> props').
Proof.
  intros Hs Hw.
  assert (Full.in_sync (Full.run p taps s)) as Hrun.
  { revert s Hs. induction Hw as [|x taps Hx _ IH]; intros s Hs; simpl; [done|].
    apply IH. by apply Full_on_card_in_sync. }
  split; [done|]. intros props Hobj.
  destruct (Full_run_object p taps s props Hobj) as [props' Hp].
  unfold Full.in_sync in Hrun. rewrite Hp, reloaded_eq in Hrun.
  destruct (Full.MAPPINGS_FILE (Full.run p taps s)) as [[|d]|]; try done.
  by exists props', d.
Qed.

(** X22. An assignment whose write succeeds brings the file up to date with
    the whole table, whatever the file held before: on a table that is an
    object, the file then holds an object with the new entry and every
    other entry of the table, also those that an earlier failed write had
    left out of the file; infinities are written as [null]. *)
Theorem successful_save_writes_whole_table p e reader c s props t v a :
  Full.TAG_KEY_MAPPING s = Full.TObj props →
  tagUID_of c = Some t → truthy_string t = true →
  Full.get (Full.TAG_KEY_MAPPING s) t = Ok v → Full.truthy v = false →
  toLowerCase (trim (answer e)) = a → a ∈ action_names p →
  mappings_writable e = true →
  let s1 := Full.final (Full.on_card p e reader c) s in
  ∃ props' d,
    Full.TAG_KEY_MAPPING s1 = Full.TObj props'
    ∧ Full.MAPPINGS_FILE s1 = Some (Full.JSON d)
    ∧ Full.JSON_parse_document d = Full.TObj (Full.sanitize <$> props')
    ∧ props' !! t = Some (Full.JStr a)
    ∧ ∀ k, k ≠ t → props' !! k = props !! k.
Proof.
  intros Hs Ht Hne Hg Hv Ha Hin Hw. simpl. unfold Full.final.
  rewrite (Full_on_card_assign_object p e reader c s props t v a) by done.
  unfold Full.assigned. simpl. rewrite Hw.
  exists (Full.put props t (Full.JStr a)). eexists.
  split; [done|]. split; [done|].
  split; [apply (reloaded_eq (Full.TObj _))|].
  split.
  - rewrite Hs in Hg. by eapply Full_put_lookup_eq.
  - intros k Hk. by apply Full_put_lookup_ne.
Qed.

(** X21 at a sample input: start-up without a mapping file, then a tap that
    assigns. *)
Lemma file_stays_up_to_date_witness :
  let e := obliging "right" in
  let s := Full.final (Full.loadMappings e) (Full.startup None) in
  let taps := [mkTap e "ACR122" (iso3 "04a224b2")] in
  (Full.in_sync s
   ∧ Forall (fun x => mappings_writable (tap_env x) = true) taps)
  ∧ Full.in_sync (Full.run Windows taps s)
  ∧ ∀ props, Full.TAG_KEY_MAPPING s = Full.TObj props →
      ∃ props' d,
        Full.TAG_KEY_MAPPING (Full.run Windows taps s) = Full.TObj props'
        ∧ Full.MAPPINGS_FILE (Full.run Windows taps s) = Some (Full.JSON d)
        ∧ Full.JSON_parse_document d = Full.TObj (Full.sanitize <$> props').
Proof.
  assert (Full.in_sync
            (Full.final (Full.loadMappings (obliging "right"))
               (Full.startup None))) as Hs by (by vm_compute).
  assert (Forall (fun x => mappings_writable (tap_env x) = true)
            [mkTap (obliging "right") "ACR122" (iso3 "04a224b2")]) as Hw
    by (by constructor).
  split; [done|].
  exact (file_stays_up_to_date Windows
           [mkTap (obliging "right") "ACR122" (iso3 "04a224b2")]
           (Full.final (Full.loadMappings (obliging "right"))
              (Full.startup None)) Hs Hw).
Defined.

(** X22 at a sample input: the table holds an entry and an infinity that an
    earlier failed write left out of the file. *)
Lemma successful_save_writes_whole_table_witness :
  let e := obliging "right" in
  let c := iso3 "04a224b2" in
  let props : gmap string Full.json :=
    {[ "0495c1a2" := Full.JStr "left";
       "04ffffff" := Full.JNum (Full.Infinite false) ]} in
  let s := Full.mkState (Full.TObj props) (Some (Full.JSON (Full.JObj []))) in
  let s1 := Full.final (Full.on_card Windows e "ACR122" c) s in
  (Full.TAG_KEY_MAPPING s = Full.TObj props
   ∧ tagUID_of c = Some "04a224b2" ∧ truthy_string "04a224b2" = true
   ∧ Full.get (Full.TAG_KEY_MAPPING s) "04a224b2" = Ok None
   ∧ Full.truthy None = false
   ∧ toLowerCase (trim (answer e)) = "right" ∧ "right" ∈ action_names Windows
   ∧ mappings_writable e = true)
  ∧ ∃ props' d,
      Full.TAG_KEY_MAPPING s1 = Full.TObj props'
      ∧ Full.MAPPINGS_FILE s1 = Some (Full.JSON d)
      ∧ Full.JSON_parse_document d = Full.TObj (Full.sanitize <$> props')
      ∧ props' !! "04a224b2" = Some (Full.JStr "right")
      ∧ ∀ k, k ≠ "04a224b2" → props' !! k = props !! k.
Proof.
  assert ("right" ∈ action_names Windows) as Hin by (by apply action_names_iff).
  split; [by repeat split|].
  exact (successful_save_writes_whole_table Windows (obliging "right") "ACR122"
           (iso3 "04a224b2")
           (Full.mkState
              (Full.TObj {[ "0495c1a2" := Full.JStr "left";
                            "04ffffff" := Full.JNum (Full.Infinite false) ]})
              (Some (Full.JSON (Full.JObj []))))
           {[ "0495c1a2" := Full.JStr "left";
              "04ffffff" := Full.JNum (Full.Infinite false) ]}
           "04a224b2" None "right"
           eq_refl eq_refl eq_refl eq_refl eq_refl eq_refl Hin eq_refl).
Defined.

End FullStore.

(** ** The first rendering and the general programs *)

Section Rendering.
Import JS JSFacts.

Lemma printable_sanitize v : Full.printable (Full.sanitize v) = Full.printable v.
Proof.
  revert v. fix IH 1. intros [|b|[m x|neg]|s|l|l]; simpl; try done.
  - induction l as [|x l IHl]; simpl; [done|]. by rewrite IH, IHl.
  - f_equal. induction l as [|[k x] l IHl]; simpl; [done|]. by rewrite IHl.
Qed.

Lemma plain_sanitize v :
  plain v = true → plain (Full.sanitize v) = true ∧ view (Full.sanitize v) = view v.
Proof.
  unfold plain. rewrite printable_sanitize.
  intros [Hp Hi]%andb_true_iff. rewrite Hp.
  by destruct v as [|b|[m x|neg]|s|l|l].
Qed.

Lemma plain_object_put props t a :
  plain_object props → plain_object (Full.put props t (Full.JStr a)).
Proof.
  intros Hp. unfold Full.put.
  destruct (props !! t), (String.eqb t "__proto__"); try done;
    by apply map_Forall_insert_2.
Qed.

Lemma view_put props t a :
  view <$> Full.put props t (Full.JStr a) = set (view <$> props) t (VString a).
Proof.
  unfold Full.put, set. rewrite lookup_fmap.
  destruct (props !! t), (String.eqb t "__proto__"); simpl; try done;
    by rewrite fmap_insert.
Qed.

(** Reading an entry in both renderings. *)
Lemma get_view props t :
  ∃ r, Full.get (Full.TObj props) t = Ok r
     ∧ get (view <$> props) t = Full.seen r
     ∧ truthy (Full.seen r) = Full.truthy r
     ∧ (plain_object props → Full.printable_read r = true).
Proof.
  unfold Full.get, get, Full.inherit. rewrite lookup_fmap.
  destruct (props !! t) as [v|] eqn:E; simpl.
  - exists (Some (Full.Value v)). split; [done|]. split; [by destruct v|].
    split; [by destruct v as [|b|[m x|neg]|s|l|l]|].
    intros Hp. apply Hp in E. by apply andb_true_iff in E as [? _].
  - destruct (inherited t); eexists; by repeat split.
Qed.

(** The events of the [try] block in both renderings. *)
Lemma trying_view p e t r s :
  Full.printable_read r = true →
  Full.trying p e t r = events (dispatch p e t (Full.seen r)) s.
Proof.
  intros Hp. unfold Full.trying. rewrite Hp, dispatch_events.
  destruct (pressKey_anywhere p e (Full.seen r) (startup None) s) as [Ho He].
  unfold outcome, events in *. by rewrite Ho, He.
Qed.

(** The file written by a save, in both renderings. *)
Lemma file_corresponds_saved props :
  plain_object props →
  file_corresponds
    (Some (Full.JSON (Full.JSON_stringify (Full.TObj props))))
    (Some (JSONObject (view <$> props))).
Proof.
  intros Hp. exists (Full.sanitize <$> props).
  split; [apply (reloaded_eq (Full.TObj props))|]. split.
  - apply map_Forall_fmap. intros k v Hk. simpl. by apply plain_sanitize, (Hp k).
  - rewrite <- map_fmap_compose. apply map_fmap_ext. intros k v Hk. simpl.
    symmetry. by apply plain_sanitize, (Hp k).
Qed.

Lemma Full_loadMappings_missing e s :
  Full.MAPPINGS_FILE s = None →
  Full.loadMappings e s
  = (Ok tt,
     Full.mkState (Full.TAG_KEY_MAPPING s)
       (if mappings_writable e
        then Some (Full.JSON (Full.JSON_stringify (Full.TAG_KEY_MAPPING s)))
        else None),
     saving e ++ [Console MsgCreated]).
Proof.
  intros Hf. unfold Full.loadMappings, Full.try_catch, Full.existsSync, mbind,
    Full.M_bind at 1.
  rewrite Hf. simpl. unfold mbind, Full.M_bind.
  rewrite Full_saveMappings_eq, Hf. simpl. by unfold Full.console, Full.emit.
Qed.

Lemma Full_loadMappings_failure e s c :
  Full.MAPPINGS_FILE s = Some c →
  mappings_readable e = false ∨ c = Full.NotJSON →
  Full.loadMappings e s
  = (Ok tt, s,
     [Console (MsgLoadError (if mappings_readable e then SyntaxError else ReadError));
      Console MsgStartingEmpty]).
Proof.
  intros Hf H. unfold_F. rewrite Hf. simpl. rewrite Hf.
  destruct (mappings_readable e); [|done].
  by destruct H as [?| ->].
Qed.

(** X28. The programs of the first rendering, which take the table for an object
    and see of an entry that is no string only whether it is truthy, are
    the general programs on the states they render: a table that is an
    object whose entries can be printed and are no infinities, and a file
    that is missing, not JSON, or such an object. On states that
    correspond, the card handler, [loadMappings] and [saveMappings] of both
    return alike, emit the same events, and leave states that correspond
    again. *)
Theorem object_tables_render_alike p e reader c s s' :
  corresponds s s' →
  (Full.outcome (Full.on_card p e reader c) s = outcome (on_card p e reader c) s'
   ∧ Full.events (Full.on_card p e reader c) s = events (on_card p e reader c) s'
   ∧ corresponds (Full.final (Full.on_card p e reader c) s)
                 (final (on_card p e reader c) s'))
  ∧ (Full.outcome (Full.loadMappings e) s = outcome (loadMappings e) s'
     ∧ Full.events (Full.loadMappings e) s = events (loadMappings e) s'
     ∧ corresponds (Full.final (Full.loadMappings e) s)
                   (final (loadMappings e) s'))
  ∧ (Full.outcome (Full.saveMappings e) s = outcome (saveMappings e) s'
     ∧ Full.events (Full.saveMappings e) s = events (saveMappings e) s'
     ∧ corresponds (Full.final (Full.saveMappings e) s)
                   (final (saveMappings e) s')).
Proof.
  intros (props & HF & Hp & HO & Hfile).
  assert (corresponds s s') as Hc by (by exists props).
  split; [|split].
  - unfold Full.outcome, Full.events, Full.final, outcome, events, final.
    destruct (Full_on_card_path p e reader c s)
      as [Hu H|t err Ht Hne Hg H|t v Ht Hne Hg Hv H|t v Ht Hne Hg Hv Ha H
          |t v a Ht Hne Hg Hv Ha Hta Hin H|t v a err Ht Hne Hg Hv Ha Hta Hin Hx H
          |t v a tb Ht Hne Hg Hv Ha Hta Hin Hx H]; rewrite H;
      [by rewrite on_card_no_uid
      |rewrite HF in Hg; by apply Full_get_throws in Hg as [? _]
      |destruct (get_view props t) as (r & Hr & Hget & Htr & Hpr);
       rewrite HF, Hr in Hg; injection Hg as ->..].
    + rewrite (on_card_hit p e reader c s' t); try done.
      * simpl. rewrite HO, Hget. by rewrite <- (trying_view p e t v s') by auto.
      * by rewrite HO, Hget, Htr.
    + rewrite (on_card_decline p e reader c s' t); try done.
      by rewrite HO, Hget, Htr.
    + rewrite (on_card_reject p e reader c s' t a); try done.
      by rewrite HO, Hget, Htr.
    + by rewrite HF in Hx.
    + rewrite HF in Hx. injection Hx as <-.
      rewrite (on_card_assign p e reader c s' t a); try done.
      2: by rewrite HO, Hget, Htr.
      simpl. split; [done|]. split.
      * by rewrite <- (trying_view p e t (Some (Full.Value (Full.JStr a)))).
      * exists (Full.put props t (Full.JStr a)). unfold Full.assigned, assigned.
        simpl. rewrite HO, <- view_put.
        split; [done|]. split; [by apply plain_object_put|]. split; [done|].
        destruct (mappings_writable e); [|done].
        by apply file_corresponds_saved, plain_object_put.
  - unfold Full.outcome, Full.events, Full.final, outcome, events, final.
    destruct s as [tb f], s' as [o g]. simpl in *. subst tb o.
    destruct f as [[|d]|], g as [[|o]|]; try done.
    + rewrite (Full_loadMappings_failure e _ Full.NotJSON) by auto.
      by rewrite (loadMappings_failure e _ NotJSON) by auto.
    + destruct (mappings_readable e) eqn:Hread.
      * destruct Hfile as (props0 & Hd & Hp0 & ->).
        rewrite Full_loadMappings_document, loadMappings_object by done.
        rewrite Hd. simpl. rewrite map_size_fmap.
        split; [done|]. split; [done|]. exists props0. simpl.
        repeat split; try done. by exists props0.
      * rewrite (Full_loadMappings_failure e _ (Full.JSON d)) by auto.
        rewrite (loadMappings_failure e _ (JSONObject o)) by auto.
        by rewrite Hread.
    + rewrite Full_loadMappings_missing, loadMappings_missing by done.
      simpl. split; [done|]. split; [done|]. exists props. simpl.
      repeat split; try done.
      destruct (mappings_writable e); [|done].
      by apply file_corresponds_saved.
  - unfold Full.outcome, Full.events, Full.final, outcome, events, final.
    rewrite Full_saveMappings_eq, saveMappings_eq. simpl.
    split; [done|]. split; [done|]. exists props. simpl.
    rewrite HF, HO. repeat split; try done.
    destruct (mappings_writable e); [|done].
    by apply file_corresponds_saved.
Qed.

(** X28 at a sample input: the states after start-up on a file that holds
    one assignment. *)
Lemma object_tables_render_alike_witness :
  let p := Windows in
  let e := obliging "left" in
  let c := iso3 "0495c1a2" in
  let s := Full.mkState (Full.TObj {[ "04a224b2" := Full.JStr "right" ]})
             (Some (Full.JSON (Full.JObj [("04a224b2", Full.JStr "right")]))) in
  let s' := mkState {[ "04a224b2" := VString "right" ]}
              (Some (JSONObject {[ "04a224b2" := VString "right" ]})) in
  corresponds s s'
  ∧ (Full.outcome (Full.on_card p e "ACR122" c) s
     = outcome (on_card p e "ACR122" c) s'
     ∧ Full.events (Full.on_card p e "ACR122" c) s
       = events (on_card p e "ACR122" c) s'
     ∧ corresponds (Full.final (Full.on_card p e "ACR122" c) s)
                   (final (on_card p e "ACR122" c) s'))
  ∧ (Full.outcome (Full.loadMappings e) s = outcome (loadMappings e) s'
     ∧ Full.events (Full.loadMappings e) s = events (loadMappings e) s'
     ∧ corresponds (Full.final (Full.loadMappings e) s)
                   (final (loadMappings e) s'))
  ∧ (Full.outcome (Full.saveMappings e) s = outcome (saveMappings e) s'
     ∧ Full.events (Full.saveMappings e) s = events (saveMappings e) s'
     ∧ corresponds (Full.final (Full.saveMappings e) s)
                   (final (saveMappings e) s')).
Proof.
  assert (plain_object {[ "04a224b2" := Full.JStr "right" ]}) as Hp
    by (by apply map_Forall_singleton).
  assert (corresponds
            (Full.mkState (Full.TObj {[ "04a224b2" := Full.JStr "right" ]})
               (Some (Full.JSON (Full.JObj [("04a224b2", Full.JStr "right")]))))
            (mkState {[ "04a224b2" := VString "right" ]}
               (Some (JSONObject {[ "04a224b2" := VString "right" ]})))) as Hc.
  { exists {[ "04a224b2" := Full.JStr "right" ]}. simpl.
    split; [done|]. split; [done|]. split; [by rewrite map_fmap_singleton|].
    exists {[ "04a224b2" := Full.JStr "right" ]}.
    split; [by vm_compute|]. split; [done|]. by rewrite map_fmap_singleton. }
  exact (conj Hc
           (object_tables_render_alike Windows (obliging "left") "ACR122"
              (iso3 "0495c1a2") _ _ Hc)).
Defined.

End Rendering.
